(** * gatsby-node.js of the Prisma documentation site

    A shallow embedding of the three Gatsby hooks exported by
    [gatsby-node.js] ([onCreateNode], [createPages],
    [onCreateWebpackConfig]) together with the JavaScript string
    primitives they rely on, followed by the properties of the page
    generation glue. *)

From stdpp Require Import gmap strings list.
From Stdlib Require Import Ascii Lia.

(** ** JavaScript values and string primitives *)

Module JS.

(** A GraphQL scalar of type [String] is a string or [null]; [None]
    stands for [null] and [undefined] alike. *)
Definition jsstring : Type := option string.

(** ToBoolean on a nullable string: [null], [undefined] and [''] are
    falsy, every other string is truthy. *)
Definition truthy (v : jsstring) : bool :=
  match v with
  | Some s => negb (String.eqb s "")
  | None => false
  end.

(** [a || b] *)
Definition or (a b : jsstring) : jsstring :=
  if truthy a then a else b.

(** [`${v}`], also the value [v] takes in ['-' + v]: [null] prints
    as the four letters of its name. *)
Definition template (v : jsstring) : string :=
  match v with
  | Some s => s
  | None => "null"
  end.

Fixpoint drop (n : nat) (s : string) : string :=
  match n, s with
  | S k, String _ s' => drop k s'
  | _, _ => s
  end.

(** [s.replace(pat, rep)] for a string pattern: the first occurrence
    of [pat], scanning from the left, is replaced; without one [s]
    comes back as it is. *)
Fixpoint replace (pat rep s : string) : string :=
  if String.prefix pat s then rep +:+ drop (String.length pat) s
  else match s with
       | "" => ""
       | String c s' => String c (replace pat rep s')
       end.

(** The character class [\d]. *)
Definition is_digit (c : ascii) : bool :=
  (48 <=? nat_of_ascii c)%nat && (nat_of_ascii c <=? 57)%nat.

(** Length of the longest run of digits at the start of [s]: what the
    greedy [\d+] consumes first. *)
Fixpoint digits_len (s : string) : nat :=
  match s with
  | String c s' => if is_digit c then S (digits_len s') else 0
  | "" => 0
  end.

Definition starts_with_hyphen (s : string) : bool :=
  match s with
  | String c _ => Ascii.eqb c "-"
  | "" => false
  end.

(** Length of the match of [/\d+-/] anchored at the start of [s], if
    there is one.  The greedy run must be followed by a hyphen:
    giving a digit back cannot help, the character after a shorter
    run being a digit. *)
Definition match_len (s : string) : option nat :=
  let k := digits_len s in
  if (0 <? k)%nat && starts_with_hyphen (drop k s) then Some (S k) else None.

(** [s.replace(/\d+-/g, '')]: at each index, left to right, a match
    is deleted and the scan resumes just after it; otherwise the
    character is kept and the scan moves one index on.  [skip] counts
    the characters of the current match still to be deleted. *)
Fixpoint strip_from (skip : nat) (s : string) : string :=
  match s with
  | "" => ""
  | String c s' =>
      match skip with
      | S k => strip_from k s'
      | 0 =>
          match match_len s with
          | Some (S n) => strip_from n s'
          | _ => String c (strip_from 0 s')
          end
      end
  end.

Definition strip_numeric (s : string) : string := strip_from 0 s.

End JS.

(** ** Effects: a call log and thrown exceptions *)

(** A hook acts on the framework only through the action it is handed
    ([createNodeField], [createPage], [setWebpackConfig]); a computation
    therefore threads the log of the calls made so far and either
    completes or throws, in which case the calls already made stay. *)

Inductive completion (A : Type) : Type :=
  | Normal (a : A)
  | Throw (e : string).
Arguments Normal {A} a.
Arguments Throw {A} e.

Definition Eff (L A : Type) : Type := list L -> list L * completion A.

Definition throw {L A} (e : string) : Eff L A := fun log => (log, Throw e).

(** One call of the action, appended to the log. *)
Definition call {L} (x : L) : Eff L unit := fun log => (log ++ [x], Normal tt).

#[global] Instance Eff_ret {L} : MRet (Eff L) :=
  fun A a log => (log, Normal a).

#[global] Instance Eff_bind {L} : MBind (Eff L) :=
  fun A B k m log =>
    match m log with
    | (log', Normal a) => k a log'
    | (log', Throw e) => (log', Throw e)
    end.

(** [l.forEach(f)] *)
Fixpoint forEach {L A} (l : list A) (f : A -> Eff L unit) : Eff L unit :=
  match l with
  | [] => mret tt
  | x :: l' => f x;; forEach l' f
  end.

(** Runs a hook from the empty log. *)
Definition run {L A} (m : Eff L A) : list L * completion A := m [].

Definition TypeError : string := "TypeError".

(** ** Data model *)

(** A [File] node of gatsby-source-filesystem, as far as the hooks read
    it. *)
Record File : Type := {
  relativePath : string;
  ext : string;
}.

(** A node handed to [onCreateNode]: [node.internal.type],
    [node.parent] and [node.id]. *)
Record Node : Type := {
  internal_type : string;
  parent : string;
  node_id : string;
}.

(** The argument of one [createNodeField] call. *)
Record NodeField : Type := {
  nf_node : Node;
  nf_name : string;
  nf_value : string;
}.

(** An entry of [techMetaTitles] or [techMetaDescriptions]. *)
Record TechMeta : Type := {
  name : JS.jsstring;
  value : JS.jsstring;
}.

(** The frontmatter selected by the query of [createPages]; every
    field is nullable, the two switchers are arrays of nullable
    strings. *)
Record Frontmatter : Type := {
  title : JS.jsstring;
  metaTitle : JS.jsstring;
  metaDescription : JS.jsstring;
  langSwitcher : option (list JS.jsstring);
  dbSwitcher : option (list JS.jsstring);
  techMetaTitles : option (list TechMeta);
  techMetaDescriptions : option (list TechMeta);
}.

(** [node.fields] of an Mdx node in the query result. *)
Record Fields : Type := {
  slug : JS.jsstring;
  id : JS.jsstring;
}.

Record MdxNode : Type := {
  fields : Fields;
  frontmatter : Frontmatter;
}.

(** The [context] and the argument of one [createPage] call. *)
Record Context : Type := {
  ctx_id : JS.jsstring;
  seoTitle : JS.jsstring;
  seoDescription : JS.jsstring;
}.

Record Page : Type := {
  path : string;
  component : string;
  context : Context;
}.

(** [result] of the content query: [result.data.allMdx.edges], with
    [data] absent when the query did not produce any. *)
Record QueryResult : Type := {
  data : option (list MdxNode);
}.

(** How a promise that settles does so. *)
Inductive Settled (A : Type) : Type :=
  | Resolves (a : A)
  | Rejects (reason : string).
Arguments Resolves {A} a.
Arguments Rejects {A} reason.

Inductive PromiseState : Type :=
  | Pending
  | Fulfilled
  | Rejected (reason : string).

(** The argument of [setWebpackConfig]: [resolve.modules] and
    [resolve.alias]. *)
Record WebpackConfig : Type := {
  resolve_modules : list string;
  resolve_alias : gmap string string;
}.

(** ** The hooks *)

(** *** [exports.onCreateNode] *)

Definition createNodeField (f : NodeField) : Eff NodeField unit := call f.

(** [getNode] looks a node up by id; [parent.relativePath] on a node
    that is not there throws. *)
Definition onCreateNode (node : Node) (getNode : string -> option File)
  : Eff NodeField unit :=
  if String.eqb (internal_type node) "Mdx" then
    match getNode (parent node) with
    | None => throw TypeError
    | Some parent =>
        let value := JS.replace (ext parent) "" (relativePath parent) in
        let value := if String.eqb value "index" then "" else value in
        createNodeField
          {| nf_node := node; nf_name := "slug"; nf_value := "/" +:+ value |};;
        createNodeField
          {| nf_node := node; nf_name := "id"; nf_value := node_id node |}
    end
  else mret tt.

(** *** [exports.createPages] *)

(** [`${lang ? `${lang}${db ? '-' : ''}` : ''}${db ? `${db}` : ''}`] *)
Definition queryParam (lang db : JS.jsstring) : string :=
  (if JS.truthy lang
   then JS.template lang +:+ (if JS.truthy db then "-" else "")
   else "")
  +:+ (if JS.truthy db then JS.template db else "").

(** [table ? table.find(item => item.name === queryParam) : null] *)
Definition find_entry (table : option (list TechMeta)) (queryParam : string)
  : option TechMeta :=
  match table with
  | Some items =>
      List.find (fun item => bool_decide (name item = Some queryParam)) items
  | None => None
  end.

Definition getTitle (frontmatter : Frontmatter) (lang db : JS.jsstring)
  : JS.jsstring :=
  let pageSeoTitle := JS.or (metaTitle frontmatter) (title frontmatter) in
  if JS.truthy lang || JS.truthy db then
    let titleEntry :=
      find_entry (techMetaTitles frontmatter) (queryParam lang db) in
    match titleEntry with
    | Some entry => value entry
    | None => pageSeoTitle
    end
  else pageSeoTitle.

Definition getDesc (frontmatter : Frontmatter) (lang db : JS.jsstring)
  : JS.jsstring :=
  let pageSeoDesc := JS.or (metaDescription frontmatter) (title frontmatter) in
  if JS.truthy lang || JS.truthy db then
    let descEntry :=
      find_entry (techMetaDescriptions frontmatter) (queryParam lang db) in
    match descEntry with
    | Some entry => value entry
    | None => pageSeoDesc
    end
  else pageSeoDesc.

Definition createPage (p : Page) : Eff Page unit := call p.

(** What [createPages] leaves behind: the [createPage] calls made, the
    state of the promise it returned, and the state of the promise of
    [graphql(...).then(...)], which it drops. *)
Record Outcome : Type := {
  created : list Page;
  returned : PromiseState;
  chained : PromiseState;
}.

Section Hooks.

(** Node's [path.resolve] and [__dirname]. *)
Variable path_resolve : list string -> string.
Variable dirname : string.

Definition articleLayout : string :=
  path_resolve ["./src/layouts/articleLayout.tsx"].

(** [node.fields.slug.replace(/\d+-/g, '')] in a variant path: there
    is no guard, a missing slug throws. *)
Definition slug_replace (node : MdxNode) : Eff Page string :=
  match slug (fields node) with
  | Some s => mret (JS.strip_numeric s)
  | None => throw TypeError
  end.

Definition variantPage (node : MdxNode) (suffix : string)
    (lang db : JS.jsstring) : Eff Page unit :=
  stripped ← slug_replace node;
  createPage
    {| path := stripped +:+ suffix;
       component := articleLayout;
       context :=
         {| ctx_id := id (fields node);
            seoTitle := getTitle (frontmatter node) lang db;
            seoDescription := getDesc (frontmatter node) lang db |} |}.

(** [node.fields.slug ? node.fields.slug.replace(/\d+-/g, '') : '/'],
    with [getTitle(node.frontmatter)] and [getDesc(node.frontmatter)]:
    both identifiers are [undefined]. *)
Definition basePageOf (node : MdxNode) : Page :=
  {| path :=
       match slug (fields node) with
       | Some s => if JS.truthy (Some s) then JS.strip_numeric s else "/"
       | None => "/"
       end;
     component := articleLayout;
     context :=
       {| ctx_id := id (fields node);
          seoTitle := getTitle (frontmatter node) None None;
          seoDescription := getDesc (frontmatter node) None None |} |}.

Definition basePage (node : MdxNode) : Eff Page unit :=
  createPage (basePageOf node).

(** The descriptor a variant page is created with, once the slug is
    known to be there. *)
Definition variantPageOf (node : MdxNode) (s suffix : string)
    (lang db : JS.jsstring) : Page :=
  {| path := JS.strip_numeric s +:+ suffix;
     component := articleLayout;
     context :=
       {| ctx_id := id (fields node);
          seoTitle := getTitle (frontmatter node) lang db;
          seoDescription := getDesc (frontmatter node) lang db |} |}.

(** The body of [edges.forEach(({ node }) => ...)].  An array is
    truthy whatever its length. *)
Definition pagesOfNode (node : MdxNode) : Eff Page unit :=
  match langSwitcher (frontmatter node) with
  | Some langs =>
      match dbSwitcher (frontmatter node) with
      | Some dbs =>
          forEach langs (fun lang =>
            forEach dbs (fun db =>
              variantPage node
                ("-" +:+ JS.template lang +:+ "-" +:+ JS.template db)
                lang db))
      | None =>
          forEach langs (fun lang =>
            variantPage node ("-" +:+ JS.template lang) lang None)
      end
  | None => mret tt
  end;;
  match dbSwitcher (frontmatter node), langSwitcher (frontmatter node) with
  | Some dbs, None =>
      forEach dbs (fun db =>
        variantPage node ("-" +:+ JS.template db) None db)
  | _, _ => mret tt
  end;;
  basePage node.

(** The callback given to [then]; [resolve()] follows its normal
    completion. *)
Definition onResult (result : QueryResult) : Eff Page unit :=
  match data result with
  | Some edges => forEach edges pagesOfNode
  | None => throw TypeError
  end.

(** [graphql] is given by the way the promise of its one call settles.
    [then] has no rejection handler and [reject] is never called: a
    rejection, of the query or thrown by the callback, settles the
    chained promise only. *)
Definition createPages (graphql : Settled QueryResult) : Outcome :=
  match graphql with
  | Resolves result =>
      match run (onResult result) with
      | (log, Normal _) =>
          {| created := log; returned := Fulfilled; chained := Fulfilled |}
      | (log, Throw e) =>
          {| created := log; returned := Pending; chained := Rejected e |}
      end
  | Rejects reason =>
      {| created := []; returned := Pending; chained := Rejected reason |}
  end.

(** *** [exports.onCreateWebpackConfig] *)

Definition setWebpackConfig (c : WebpackConfig) : Eff WebpackConfig unit :=
  call c.

Definition onCreateWebpackConfig : Eff WebpackConfig unit :=
  setWebpackConfig
    {| resolve_modules := [path_resolve [dirname; "src"]; "node_modules"];
       resolve_alias :=
         {[ "$components" := path_resolve [dirname; "src/components"];
            "buble" := "@philpl/buble" ]} |}.

End Hooks.

(** * Vocabulary of the properties *)

(** An entry answers to [key] when its name is exactly that string. *)
Definition named (key : string) (e : TechMeta) : Prop := name e = Some key.

(** Resolution of [key] against an optional override table with a
    default: the value of the first entry that answers to [key], the
    default when none does or the table is absent. *)
Inductive resolved (key : string) (default : JS.jsstring)
  : option (list TechMeta) -> JS.jsstring -> Prop :=
  | resolved_absent :
      resolved key default None default
  | resolved_miss items :
      Forall (fun e => ~ named key e) items ->
      resolved key default (Some items) default
  | resolved_first before e after :
      Forall (fun e => ~ named key e) before ->
      named key e ->
      resolved key default (Some (before ++ e :: after)) (value e).

(** The key of a variant: lang "-" db when both identifiers are present,
    the one that is present otherwise, none when neither is.  An
    identifier is present when it is a non-empty string. *)
Definition composedKey (lang db : JS.jsstring) : option string :=
  match lang, db with
  | Some l, Some d =>
      if bool_decide (l <> "") then
        if bool_decide (d <> "") then Some (l +:+ "-" +:+ d) else Some l
      else if bool_decide (d <> "") then Some d else None
  | Some l, None => if bool_decide (l <> "") then Some l else None
  | None, Some d => if bool_decide (d <> "") then Some d else None
  | None, None => None
  end.

(** [s] has no dot in it. *)
Fixpoint dotless (s : string) : bool :=
  match s with
  | "" => true
  | String c s' => negb (Ascii.eqb c ".") && dotless s'
  end.

(** [s] is made of digits only. *)
Fixpoint all_digits (s : string) : bool :=
  match s with
  | "" => true
  | String c s' => JS.is_digit c && all_digits s'
  end.

(** The last character of [s] is a digit: a run of digits placed after
    [s] would not be maximal. *)
Fixpoint ends_with_digit (s : string) : bool :=
  match s with
  | "" => false
  | String c "" => JS.is_digit c
  | String _ s' => ends_with_digit s'
  end.

(** Some digit of [s] is directly followed by a hyphen: [/\d+-/] has a
    match in [s]. *)
Fixpoint has_digit_hyphen (s : string) : bool :=
  match s with
  | "" => false
  | String c s' =>
      (JS.is_digit c && JS.starts_with_hyphen s') || has_digit_hyphen s'
  end.

(** ** Vocabulary of the further properties *)

(** Some loop body of [pagesOfNode] runs at least once: an inner loop
    over an empty array runs nothing, whatever the outer array holds. *)
Definition hasVariant (node : MdxNode) : bool :=
  match langSwitcher (frontmatter node), dbSwitcher (frontmatter node) with
  | Some (_ :: _), Some (_ :: _) => true
  | Some (_ :: _), None => true
  | None, Some (_ :: _) => true
  | _, _ => false
  end.

(** The variant pages of a node whose slug is [s], in the order of the
    loops. *)
Definition variantPagesOf (path_resolve : list string -> string)
    (node : MdxNode) (s : string) : list Page :=
  match langSwitcher (frontmatter node), dbSwitcher (frontmatter node) with
  | Some langs, Some dbs =>
      map (fun p => variantPageOf path_resolve node s
                      ("-" +:+ JS.template p.1 +:+ "-" +:+ JS.template p.2)
                      p.1 p.2)
          (list_prod langs dbs)
  | Some langs, None =>
      map (fun lang => variantPageOf path_resolve node s
                         ("-" +:+ JS.template lang) lang None) langs
  | None, Some dbs =>
      map (fun db => variantPageOf path_resolve node s
                       ("-" +:+ JS.template db) None db) dbs
  | None, None => []
  end.

(** The number of [createPage] calls a node asks for. *)
Definition pageCount (node : MdxNode) : nat :=
  S match langSwitcher (frontmatter node), dbSwitcher (frontmatter node) with
    | Some langs, Some dbs => length langs * length dbs
    | Some langs, None => length langs
    | None, Some dbs => length dbs
    | None, None => 0
    end.

(** Every call [m] adds to a log of calls satisfying [P] satisfies [P],
    whether [m] completes or throws. *)
Definition logs_only {L A} (P : L -> Prop) (m : Eff L A) : Prop :=
  forall log, Forall P log -> Forall P (m log).1.

(** [s] has no hyphen in it. *)
Fixpoint hyphen_free (s : string) : bool :=
  match s with
  | "" => true
  | String c s' => negb (Ascii.eqb c "-") && hyphen_free s'
  end.

(** The identifiers of a switcher as they are printed into the paths. *)
Definition identifiers (switcher : option (list JS.jsstring)) : list string :=
  match switcher with
  | Some ids => map JS.template ids
  | None => []
  end.

(** Every identifier of a declared switcher is a non-empty string. *)
Definition allPresent (switcher : option (list JS.jsstring)) : Prop :=
  match switcher with
  | Some ids => Forall (fun x => JS.truthy x = true) ids
  | None => True
  end.

(** Title and description of [p] are what the override tables of
    [frontmatter] give for [key]. *)
Definition seoResolved (frontmatter : Frontmatter) (key : string) (p : Page)
  : Prop :=
  resolved key (JS.or (metaTitle frontmatter) (title frontmatter))
    (techMetaTitles frontmatter) (seoTitle (context p))
  /\ resolved key (JS.or (metaDescription frontmatter) (title frontmatter))
       (techMetaDescriptions frontmatter) (seoDescription (context p)).

(** The characters of [s] that are neither digits nor hyphens, in
    order. *)
Fixpoint letters (s : string) : string :=
  match s with
  | "" => ""
  | String c s' =>
      if JS.is_digit c || Ascii.eqb c "-" then letters s'
      else String c (letters s')
  end.

(** [pat] occurs in [s] at one of the first [n] indices. *)
Fixpoint occurs_before (pat s : string) (n : nat) : bool :=
  match n with
  | 0 => false
  | S k =>
      String.prefix pat s
      || match s with
         | "" => false
         | String _ s' => occurs_before pat s' k
         end
  end.

(** Sample inputs. *)

Definition sample_resolve (segments : list string) : string :=
  String.concat "/" segments.

Definition sample_frontmatter (langs dbs : option (list JS.jsstring))
  : Frontmatter :=
  {| title := Some "Quickstart";
     metaTitle := None;
     metaDescription := None;
     langSwitcher := langs;
     dbSwitcher := dbs;
     techMetaTitles :=
       Some [ {| name := Some "node"; value := Some "Quickstart (Node.js)" |};
              {| name := Some "typescript-postgres";
                 value := Some "Quickstart (TypeScript, PostgreSQL)" |};
              {| name := Some "typescript-postgres"; value := Some "unused" |} ];
     techMetaDescriptions := None |}.

Definition sample_node (langs dbs : option (list JS.jsstring)) : MdxNode :=
  {| fields := {| slug := Some "/01-getting-started/02-quickstart";
                  id := Some "mdx-7" |};
     frontmatter := sample_frontmatter langs dbs |}.

Definition sample_langs : list JS.jsstring := [Some "typescript"; Some "node"].
Definition sample_dbs : list JS.jsstring :=
  [Some "postgres"; Some "mysql"; Some "sqlite"].

Definition sample_file : File :=
  {| relativePath := "01-getting-started/02-quickstart.mdx"; ext := ".mdx" |}.

Definition sample_mdx : Node :=
  {| internal_type := "Mdx"; parent := "file-7"; node_id := "mdx-7" |}.

Definition sample_other : Node :=
  {| internal_type := "File"; parent := ""; node_id := "file-7" |}.

Definition sample_no_slug (langs dbs : option (list JS.jsstring)) : MdxNode :=
  {| fields := {| slug := None; id := Some "mdx-9" |};
     frontmatter := sample_frontmatter langs dbs |}.

(** * Properties *)

(** ** The call log *)

Section EffLemmas.

Context {L : Type}.

Lemma bind_normal {A B} (m : Eff L A) (k : A -> Eff L B) log log' a :
  m log = (log', Normal a) -> (m ≫= k) log = k a log'.
Proof. intros H. unfold mbind, Eff_bind. now rewrite H. Qed.

Lemma bind_throw {A B} (m : Eff L A) (k : A -> Eff L B) log log' e :
  m log = (log', Throw e) -> (m ≫= k) log = (log', Throw e).
Proof. intros H. unfold mbind, Eff_bind. now rewrite H. Qed.

Lemma bind_inv {A B} (m : Eff L A) (k : A -> Eff L B) log log2 b :
  (m ≫= k) log = (log2, Normal b) ->
  exists a log1, m log = (log1, Normal a) /\ k a log1 = (log2, Normal b).
Proof.
  unfold mbind, Eff_bind. destruct (m log) as [log1 [a|e]]; [eauto|discriminate].
Qed.

(** A loop whose body only makes calls makes the calls of each
    element in turn and completes. *)
Lemma forEach_calls {A} (h : A -> list L) (f : A -> Eff L unit) (l : list A) :
  (forall x log, In x l -> f x log = (log ++ h x, Normal tt)) ->
  forall log, forEach l f log = (log ++ concat (map h l), Normal tt).
Proof.
  induction l as [|x l IH]; intros Hf log; simpl.
  - now rewrite app_nil_r.
  - erewrite bind_normal by (apply Hf; now left).
    rewrite IH by (intros; apply Hf; now right).
    now rewrite <- app_assoc.
Qed.

(** The same with one call per element. *)
Lemma forEach_call {A} (g : A -> L) (f : A -> Eff L unit) (l : list A) :
  (forall x log, In x l -> f x log = (log ++ [g x], Normal tt)) ->
  forall log, forEach l f log = (log ++ map g l, Normal tt).
Proof.
  intros Hf log. rewrite (forEach_calls (fun x => [g x])) by exact Hf.
  do 2 f_equal. clear. induction l; simpl; congruence.
Qed.

End EffLemmas.

(** One pair per combination, first component outermost: the order of
    the nested loops. *)
Lemma concat_map_pairs {A B C} (g : A -> B -> C) (l : list A) (l' : list B) :
  concat (map (fun x => map (g x) l') l)
  = map (fun p => g p.1 p.2) (list_prod l l').
Proof.
  induction l as [|x l IH]; simpl; [reflexivity|].
  now rewrite map_app, map_map, IH.
Qed.

(** ** Variant fan-out *)

Section FanOut.

Variable path_resolve : list string -> string.

Lemma variantPage_call node s suffix lang db log :
  slug (fields node) = Some s ->
  variantPage path_resolve node suffix lang db log
  = (log ++ [variantPageOf path_resolve node s suffix lang db], Normal tt).
Proof.
  intros Hs. unfold variantPage, slug_replace. rewrite Hs. reflexivity.
Qed.

Lemma variantPage_throws node suffix lang db log :
  slug (fields node) = None ->
  variantPage path_resolve node suffix lang db log = (log, Throw TypeError).
Proof.
  intros Hs. unfold variantPage, slug_replace. rewrite Hs. reflexivity.
Qed.

Lemma basePage_call node log :
  basePage path_resolve node log
  = (log ++ [basePageOf path_resolve node], Normal tt).
Proof. reflexivity. Qed.

(** With both switchers: the pages of all pairs, then the base page. *)
Lemma pagesOfNode_both node langs dbs s log :
  langSwitcher (frontmatter node) = Some langs ->
  dbSwitcher (frontmatter node) = Some dbs ->
  slug (fields node) = Some s ->
  pagesOfNode path_resolve node log
  = (log
     ++ map (fun p => variantPageOf path_resolve node s
               ("-" +:+ JS.template p.1 +:+ "-" +:+ JS.template p.2) p.1 p.2)
            (list_prod langs dbs)
     ++ [basePageOf path_resolve node], Normal tt).
Proof.
  intros Hl Hd Hs. unfold pagesOfNode. rewrite Hl, Hd.
  erewrite bind_normal; cycle 1.
  { apply (forEach_calls (fun lang => map (fun db => variantPageOf path_resolve node s
             ("-" +:+ JS.template lang +:+ "-" +:+ JS.template db) lang db) dbs)).
    intros lang log' _. apply forEach_call.
    intros db log'' _. now apply variantPage_call. }
  erewrite bind_normal by reflexivity.
  rewrite basePage_call, <- app_assoc.
  now rewrite (concat_map_pairs (fun lang db => variantPageOf path_resolve node s
             ("-" +:+ JS.template lang +:+ "-" +:+ JS.template db) lang db)).
Qed.

End FanOut.

(** With one switcher: one page per identifier, then the base page. *)
Lemma pagesOfNode_lang path_resolve node langs s log :
  langSwitcher (frontmatter node) = Some langs ->
  dbSwitcher (frontmatter node) = None ->
  slug (fields node) = Some s ->
  pagesOfNode path_resolve node log
  = (log
     ++ map (fun lang => variantPageOf path_resolve node s
               ("-" +:+ JS.template lang) lang None) langs
     ++ [basePageOf path_resolve node], Normal tt).
Proof.
  intros Hl Hd Hs. unfold pagesOfNode. rewrite Hl, Hd.
  erewrite bind_normal; cycle 1.
  { apply (forEach_call (fun lang => variantPageOf path_resolve node s
             ("-" +:+ JS.template lang) lang None)).
    intros lang log' _. now apply variantPage_call. }
  erewrite bind_normal by reflexivity.
  now rewrite basePage_call, <- app_assoc.
Qed.

Lemma pagesOfNode_db path_resolve node dbs s log :
  langSwitcher (frontmatter node) = None ->
  dbSwitcher (frontmatter node) = Some dbs ->
  slug (fields node) = Some s ->
  pagesOfNode path_resolve node log
  = (log
     ++ map (fun db => variantPageOf path_resolve node s
               ("-" +:+ JS.template db) None db) dbs
     ++ [basePageOf path_resolve node], Normal tt).
Proof.
  intros Hl Hd Hs. unfold pagesOfNode. rewrite Hl, Hd.
  erewrite bind_normal by reflexivity.
  erewrite bind_normal; cycle 1.
  { apply (forEach_call (fun db => variantPageOf path_resolve node s
             ("-" +:+ JS.template db) None db)).
    intros db log' _. now apply variantPage_call. }
  now rewrite basePage_call, <- app_assoc.
Qed.

(** Without a switcher: the base page alone. *)
Lemma pagesOfNode_plain path_resolve node log :
  langSwitcher (frontmatter node) = None ->
  dbSwitcher (frontmatter node) = None ->
  pagesOfNode path_resolve node log
  = (log ++ [basePageOf path_resolve node], Normal tt).
Proof.
  intros Hl Hd. unfold pagesOfNode. rewrite Hl, Hd. reflexivity.
Qed.

(** The variant paths are built without the guard of the base page: a
    node without slug throws at its first variant, before any page. *)
Lemma pagesOfNode_no_slug path_resolve node lang langs log :
  langSwitcher (frontmatter node) = Some (lang :: langs) ->
  dbSwitcher (frontmatter node) = None ->
  slug (fields node) = None ->
  pagesOfNode path_resolve node log = (log, Throw TypeError).
Proof.
  intros Hl Hd Hs. unfold pagesOfNode. rewrite Hl, Hd.
  apply bind_throw. simpl. apply bind_throw. now apply variantPage_throws.
Qed.

(** The pages of a node with a slug do not depend on the pages created
    before it. *)
Lemma pagesOfNode_appends path_resolve node s log :
  slug (fields node) = Some s ->
  pagesOfNode path_resolve node log
  = (log ++ (run (pagesOfNode path_resolve node)).1, Normal tt).
Proof.
  intros Hs. unfold run.
  destruct (langSwitcher (frontmatter node)) as [langs|] eqn:Hl;
    destruct (dbSwitcher (frontmatter node)) as [dbs|] eqn:Hd.
  - now rewrite !(pagesOfNode_both _ _ _ _ _ _ Hl Hd Hs).
  - now rewrite !(pagesOfNode_lang _ _ _ _ _ Hl Hd Hs).
  - now rewrite !(pagesOfNode_db _ _ _ _ _ Hl Hd Hs).
  - now rewrite !(pagesOfNode_plain _ _ _ Hl Hd).
Qed.

(** When the query delivers nodes that all have a slug, the pages of
    the nodes are created in the order of the edges and the returned
    promise is fulfilled. *)
Lemma createPages_fulfils path_resolve edges :
  Forall (fun node => is_Some (slug (fields node))) edges ->
  createPages path_resolve (Resolves {| data := Some edges |})
  = {| created :=
         concat (map (fun node => (run (pagesOfNode path_resolve node)).1) edges);
       returned := Fulfilled;
       chained := Fulfilled |}.
Proof.
  intros Hall. unfold createPages, onResult, run at 1. cbn [data].
  assert (forall log,
             forEach edges (pagesOfNode path_resolve) log
             = (log ++ concat (map (fun node =>
                  (run (pagesOfNode path_resolve node)).1) edges), Normal tt))
    as ->; [|reflexivity].
  apply forEach_calls. intros node log Hin.
  rewrite Forall_forall in Hall.
  destruct (Hall node) as [s Hs]; [now apply list_elem_of_In|].
  now apply pagesOfNode_appends with s.
Qed.

(** C1: a node declaring a [langSwitcher] of N identifiers and a
    [dbSwitcher] of M identifiers gets, before its base page, exactly
    N * M further pages, one per ordered pair (lang, db) in the order of
    the nested loops, the path of each being the slug with its numeric
    prefixes stripped followed by "-" lang "-" db. *)
Theorem C1_lang_db_fanout path_resolve node langs dbs s :
  langSwitcher (frontmatter node) = Some langs ->
  dbSwitcher (frontmatter node) = Some dbs ->
  slug (fields node) = Some s ->
  exists variants,
    run (pagesOfNode path_resolve node)
    = (variants ++ [basePageOf path_resolve node], Normal tt)
    /\ length variants = length langs * length dbs
    /\ map path variants
       = map (fun p => JS.strip_numeric s +:+ "-" +:+ JS.template p.1
                         +:+ "-" +:+ JS.template p.2)
             (list_prod langs dbs).
Proof.
  intros Hl Hd Hs. eexists. split; [|split].
  - unfold run. rewrite (pagesOfNode_both _ _ _ _ _ _ Hl Hd Hs). reflexivity.
  - now rewrite length_map, length_prod.
  - rewrite map_map. reflexivity.
Qed.

(** C6: a node declaring only a [langSwitcher] of N identifiers, or
    only a [dbSwitcher] of M identifiers, gets, before its base page,
    exactly one further page per identifier, its path being the slug
    with its numeric prefixes stripped followed by "-" and the
    identifier. *)
Theorem C6_single_switcher_fanout path_resolve node ids s :
  slug (fields node) = Some s ->
  (langSwitcher (frontmatter node) = Some ids
   /\ dbSwitcher (frontmatter node) = None)
  \/ (langSwitcher (frontmatter node) = None
      /\ dbSwitcher (frontmatter node) = Some ids) ->
  exists variants,
    run (pagesOfNode path_resolve node)
    = (variants ++ [basePageOf path_resolve node], Normal tt)
    /\ length variants = length ids
    /\ map path variants
       = map (fun x => JS.strip_numeric s +:+ "-" +:+ JS.template x) ids.
Proof.
  intros Hs [[Hl Hd]|[Hl Hd]]; eexists; (split; [|split]).
  - unfold run. rewrite (pagesOfNode_lang _ _ _ _ _ Hl Hd Hs). reflexivity.
  - now rewrite length_map.
  - now rewrite map_map.
  - unfold run. rewrite (pagesOfNode_db _ _ _ _ _ Hl Hd Hs). reflexivity.
  - now rewrite length_map.
  - now rewrite map_map.
Qed.

(** ** SEO title and description *)

Lemma truthy_Some s : JS.truthy (Some s) = true <-> s <> "".
Proof.
  unfold JS.truthy. destruct (String.eqb_spec s ""); simpl; intuition congruence.
Qed.

Lemma append_cons c (s t : string) : String c s +:+ t = String c (s +:+ t).
Proof. reflexivity. Qed.

Lemma append_empty_r (s : string) : s +:+ "" = s.
Proof. induction s; [reflexivity|rewrite append_cons; congruence]. Qed.

Lemma append_assoc (s t u : string) : (s +:+ t) +:+ u = s +:+ t +:+ u.
Proof. induction s; [reflexivity|rewrite !append_cons; congruence]. Qed.

Lemma truthy_decide s : JS.truthy (Some s) = bool_decide (s <> "").
Proof.
  case_bool_decide as H; [now apply truthy_Some|].
  destruct (JS.truthy (Some s)) eqn:Ht; [|reflexivity].
  now apply truthy_Some in Ht.
Qed.

Lemma composedKey_queryParam lang db key :
  composedKey lang db = Some key ->
  queryParam lang db = key /\ JS.truthy lang || JS.truthy db = true.
Proof.
  unfold composedKey, queryParam.
  destruct lang as [l|], db as [d|]; rewrite ?truthy_decide;
    cbn [JS.truthy JS.template];
    repeat case_bool_decide; intros [= <-]; split; try reflexivity.
  - apply append_assoc.
  - now rewrite !append_empty_r.
  - now rewrite !append_empty_r.
Qed.

(** [find] stops at the first entry satisfying the test. *)
Lemma find_first {A} (p : A -> bool) (l : list A) :
  match List.find p l with
  | Some x =>
      exists before after,
        l = before ++ x :: after /\ Forall (fun y => p y = false) before
        /\ p x = true
  | None => Forall (fun y => p y = false) l
  end.
Proof.
  induction l as [|y l IH]; simpl; [constructor|].
  destruct (p y) eqn:Hy.
  - exists [], l. repeat split; auto.
  - destruct (List.find p l) as [x|].
    + destruct IH as (before & after & -> & Hb & Hx).
      exists (y :: before), after. repeat split; auto.
    + constructor; auto.
Qed.

Lemma find_entry_resolved table key default :
  resolved key default table
    match find_entry table key with
    | Some entry => value entry
    | None => default
    end.
Proof.
  destruct table as [items|]; simpl; [|constructor].
  pose proof (find_first (fun item => bool_decide (name item = Some key)) items) as H.
  destruct (List.find _ items) as [e|].
  - destruct H as (before & after & -> & Hb & He).
    constructor.
    + eapply Forall_impl; [exact Hb|]. intros x Hx. simpl in Hx.
      now apply bool_decide_eq_false in Hx.
    + now apply bool_decide_eq_true in He.
  - constructor. eapply Forall_impl; [exact H|]. intros x Hx. simpl in Hx.
    now apply bool_decide_eq_false in Hx.
Qed.

(** The table, the key and the default determine the result. *)
Lemma resolved_functional key default table r1 r2 :
  resolved key default table r1 -> resolved key default table r2 -> r1 = r2.
Proof.
  intros H1 H2. destruct H1 as [|items Hm|before e after Hb He].
  - now inversion H2.
  - inversion H2 as [|items' Hm'|before' e' after' Hb' He' Heq]; subst; auto.
    rewrite Forall_app, Forall_cons in Hm. now destruct Hm as (_ & Hm & _).
  - remember (Some (before ++ e :: after)) as t eqn:Ht.
    destruct H2 as [|items' Hm'|before' e' after' Hb' He']; [discriminate| |].
    + injection Ht as ->. rewrite Forall_app, Forall_cons in Hm'.
      now destruct Hm' as (_ & Hm' & _).
    + injection Ht as Ht. revert before' Hb' Ht.
      induction before as [|x before IH]; intros [|x' before'] Hb' Ht;
        simpl in Ht; injection Ht as -> Ht.
      * reflexivity.
      * apply Forall_cons in Hb'. now destruct Hb'.
      * apply Forall_cons in Hb. now destruct Hb.
      * apply Forall_cons in Hb, Hb'. destruct Hb, Hb'. eapply IH; eauto.
Qed.

(** C2: for a variant page, one with a language or a database
    identifier present, title and description are the value of the
    first entry of [techMetaTitles], respectively
    [techMetaDescriptions], whose name is exactly the composed key
    (lang "-" db when both are present, the present one otherwise);
    when no entry has that name or the list is absent they are the
    page-level defaults [metaTitle || title] and
    [metaDescription || title]. *)
Theorem C2_variant_seo_lookup frontmatter lang db key :
  composedKey lang db = Some key ->
  resolved key (JS.or (metaTitle frontmatter) (title frontmatter))
    (techMetaTitles frontmatter) (getTitle frontmatter lang db)
  /\ resolved key (JS.or (metaDescription frontmatter) (title frontmatter))
       (techMetaDescriptions frontmatter) (getDesc frontmatter lang db).
Proof.
  intros Hk. apply composedKey_queryParam in Hk as [Hq Ht].
  unfold getTitle, getDesc. rewrite Ht, Hq.
  split; apply find_entry_resolved.
Qed.

(** C9: the base page of a node takes its title and description from
    the page-level fields alone, [metaTitle || title] and
    [metaDescription || title]; a node without [metaDescription] gets
    its title as description; two nodes that agree on these three
    fields get the same title and description on their base pages,
    whatever their override tables hold; and the base page is the last
    page created for the node. *)
Theorem C9_base_page_seo_defaults path_resolve node :
  let fm := frontmatter node in
  let base := basePageOf path_resolve node in
  seoTitle (context base) = JS.or (metaTitle fm) (title fm)
  /\ seoDescription (context base) = JS.or (metaDescription fm) (title fm)
  /\ (JS.truthy (metaDescription fm) = false ->
      seoDescription (context base) = title fm)
  /\ (forall node',
        title (frontmatter node') = title fm ->
        metaTitle (frontmatter node') = metaTitle fm ->
        metaDescription (frontmatter node') = metaDescription fm ->
        context (basePageOf path_resolve node')
        = {| ctx_id := id (fields node');
             seoTitle := seoTitle (context base);
             seoDescription := seoDescription (context base) |})
  /\ (forall log pages,
        pagesOfNode path_resolve node log = (pages, Normal tt) ->
        exists earlier, pages = earlier ++ [base]).
Proof.
  simpl. repeat split.
  - intros Hm. unfold getDesc, JS.or. simpl. now rewrite Hm.
  - intros node' Ht Hm Hd. unfold getTitle, getDesc. simpl. now rewrite Ht, Hm, Hd.
  - intros log pages H. unfold pagesOfNode in H.
    apply bind_inv in H as (_ & log1 & _ & H).
    apply bind_inv in H as (_ & log2 & _ & H).
    rewrite basePage_call in H. injection H as <-. eauto.
Qed.

(** ** Node fields *)

(** C5: on an Mdx node whose parent file is there, the hook makes
    exactly two [createNodeField] calls, both on that node: the field
    "slug", whose value is "/" followed by the derived value (the
    relative path with the extension replaced away, the root "index"
    giving the empty string), and the field "id", whose value is the
    node's own id. *)
Theorem C5_two_fields node getNode file :
  internal_type node = "Mdx" ->
  getNode (parent node) = Some file ->
  exists value,
    run (onCreateNode node getNode)
    = ([ {| nf_node := node; nf_name := "slug"; nf_value := "/" +:+ value |};
         {| nf_node := node; nf_name := "id"; nf_value := node_id node |} ],
       Normal tt)
    /\ value = (if decide (JS.replace (ext file) "" (relativePath file) = "index")
                then ""
                else JS.replace (ext file) "" (relativePath file)).
Proof.
  intros Ht Hp. eexists. split.
  - unfold run, onCreateNode. rewrite Ht, Hp. reflexivity.
  - destruct (String.eqb_spec (JS.replace (ext file) "" (relativePath file)) "index");
      case_decide; congruence.
Qed.

(** C8: on a node whose type is not exactly "Mdx" the hook makes no
    [createNodeField] call, looks no parent up and completes: the log,
    and with it the node, is as before. *)
Theorem C8_only_mdx_annotated node getNode log :
  internal_type node <> "Mdx" ->
  onCreateNode node getNode log = (log, Normal tt).
Proof.
  intros Ht. unfold onCreateNode.
  destruct (String.eqb_spec (internal_type node) "Mdx"); [contradiction|reflexivity].
Qed.

Lemma prefix_refl (s : string) : String.prefix s s = true.
Proof. induction s as [|c s IH]; simpl; [reflexivity|]. now destruct (ascii_dec c c). Qed.

Lemma drop_length (s : string) : JS.drop (String.length s) s = "".
Proof. induction s; simpl; auto. Qed.

Lemma replace_cons pat rep c s :
  JS.replace pat rep (String c s)
  = if String.prefix pat (String c s)
    then rep +:+ JS.drop (String.length pat) (String c s)
    else String c (JS.replace pat rep s).
Proof. reflexivity. Qed.

Lemma prefix_cons a s1 b s2 :
  String.prefix (String a s1) (String b s2)
  = if ascii_dec a b then String.prefix s1 s2 else false.
Proof. reflexivity. Qed.

(** When the extension starts with a dot and the rest of the relative
    path has none, the replacement does strip the extension. *)
Lemma replace_dotless_stem stem e :
  dotless stem = true ->
  JS.replace (String "." e) "" (stem +:+ String "." e) = stem.
Proof.
  induction stem as [|c stem IH]; intros Hd.
  - change ("" +:+ String "." e) with (String "." e).
    rewrite replace_cons, prefix_refl.
    apply (drop_length (String "." e)).
  - rewrite append_cons, replace_cons, prefix_cons.
    simpl in Hd. apply andb_true_iff in Hd as [Hc Hd].
    destruct (ascii_dec "." c) as [<-|_]; [discriminate|].
    now rewrite IH.
Qed.

(** So a root-level [index] file gets the slug "/", and a file under
    numbered directories keeps the numbers in its slug field. *)
Lemma onCreateNode_dotless node getNode stem e :
  internal_type node = "Mdx" ->
  getNode (parent node)
  = Some {| relativePath := stem +:+ String "." e; ext := String "." e |} ->
  dotless stem = true ->
  run (onCreateNode node getNode)
  = ([ {| nf_node := node; nf_name := "slug";
          nf_value := "/" +:+ (if String.eqb stem "index" then "" else stem) |};
       {| nf_node := node; nf_name := "id"; nf_value := node_id node |} ],
     Normal tt).
Proof.
  intros Ht Hp Hd. unfold run, onCreateNode. rewrite Ht, Hp.
  cbn [ext relativePath String.eqb Ascii.eqb Bool.eqb].
  rewrite (replace_dotless_stem _ _ Hd). reflexivity.
Qed.

(** C3: the derivation replaces the first occurrence of the extension,
    wherever it is.  For the file [a.mdx/b.mdx] the slug field is
    [/a/b.mdx] and so is the path of the base page: the extension is
    still there, and a directory name has lost its end. *)
Theorem C3_extension_left_in_slug :
  let node := {| internal_type := "Mdx"; parent := "file-1"; node_id := "mdx-1" |} in
  let file := {| relativePath := "a.mdx/b.mdx"; ext := ".mdx" |} in
  run (onCreateNode node (fun _ => Some file))
  = ([ {| nf_node := node; nf_name := "slug"; nf_value := "/a/b.mdx" |};
       {| nf_node := node; nf_name := "id"; nf_value := "mdx-1" |} ], Normal tt)
  /\ forall path_resolve frontmatter,
       path (basePageOf path_resolve
               {| fields := {| slug := Some "/a/b.mdx"; id := Some "mdx-1" |};
                  frontmatter := frontmatter |})
       = "/a/b.mdx".
Proof. split; [reflexivity|]. intros path_resolve frontmatter. reflexivity. Qed.

(** ** Bundler configuration *)

(** C7: the hook calls [setWebpackConfig] once; the alias table of that
    configuration has exactly two entries, [$components] for the
    components directory under [src] and [buble] for [@philpl/buble],
    and the module resolution paths are the [src] directory followed by
    [node_modules]. *)
Theorem C7_webpack_config path_resolve dirname :
  exists config,
    run (onCreateWebpackConfig path_resolve dirname) = ([config], Normal tt)
    /\ resolve_alias config !! "$components"
       = Some (path_resolve [dirname; "src/components"])
    /\ resolve_alias config !! "buble" = Some "@philpl/buble"
    /\ dom (resolve_alias config) = {[ "$components"; "buble" ]}
    /\ size (resolve_alias config) = 2
    /\ resolve_modules config = [path_resolve [dirname; "src"]; "node_modules"].
Proof.
  eexists. split; [reflexivity|]. cbn [resolve_alias resolve_modules].
  split; [apply lookup_insert_eq|].
  split; [rewrite lookup_insert_ne by discriminate; apply lookup_singleton_eq|].
  split; [now rewrite dom_insert_L, dom_singleton_L|].
  split; [|reflexivity].
  rewrite map_size_insert_None by reflexivity. now rewrite map_size_singleton.
Qed.

(** ** Failure of the content query *)

(** C4: when the promise of the content query rejects, or fulfils
    without data, no page is created and the promise of the [then]
    chain rejects; the promise [createPages] returned is not rejected,
    it stays pending. *)
Theorem C4_failed_query_leaves_promise_pending path_resolve reason :
  createPages path_resolve (Rejects reason)
  = {| created := []; returned := Pending; chained := Rejected reason |}
  /\ createPages path_resolve (Resolves {| data := None |})
     = {| created := []; returned := Pending; chained := Rejected TypeError |}.
Proof. split; reflexivity. Qed.

(** ** Stripping of numeric prefixes *)

Lemma strip_from_0 c s :
  JS.strip_from 0 (String c s)
  = match JS.match_len (String c s) with
    | Some (S n) => JS.strip_from n s
    | _ => String c (JS.strip_from 0 s)
    end.
Proof. reflexivity. Qed.

Lemma strip_from_drop k s : JS.strip_from k s = JS.strip_from 0 (JS.drop k s).
Proof.
  revert k. induction s as [|c s IH]; intros [|k]; try reflexivity.
  exact (IH k).
Qed.

Lemma drop_nonempty k s : JS.drop k s <> "" -> k < String.length s.
Proof.
  revert k. induction s as [|c s IH]; intros [|k] H; simpl in *;
    try congruence; try lia.
  apply IH in H. lia.
Qed.

Lemma drop_append k a b :
  k < String.length a -> JS.drop k (a +:+ b) = JS.drop k a +:+ b.
Proof.
  revert k. induction a as [|c a IH]; intros k Hk; simpl in Hk; [lia|].
  destruct k as [|k]; [reflexivity|]. rewrite append_cons. simpl.
  apply IH. lia.
Qed.

Lemma starts_with_hyphen_nonempty s :
  JS.starts_with_hyphen s = true -> s <> "".
Proof. destruct s; [discriminate|congruence]. Qed.

Lemma starts_with_hyphen_append s b :
  s <> "" -> JS.starts_with_hyphen (s +:+ b) = JS.starts_with_hyphen s.
Proof. destruct s; [congruence|reflexivity]. Qed.

Lemma ends_with_digit_tail c s :
  ends_with_digit (String c s) = false -> ends_with_digit s = false.
Proof. destruct s; [reflexivity|auto]. Qed.

(** A run of digits inside a string that does not end with a digit
    stops before the end of that string, whatever follows it. *)
Lemma digits_len_append a b :
  a <> "" -> ends_with_digit a = false ->
  JS.digits_len (a +:+ b) = JS.digits_len a
  /\ JS.digits_len a < String.length a.
Proof.
  induction a as [|c a IH]; intros Hne He; [congruence|].
  rewrite append_cons. simpl JS.digits_len. simpl String.length.
  destruct (JS.is_digit c) eqn:Hc; [|split; [reflexivity|lia]].
  destruct a as [|d a].
  - simpl in He. congruence.
  - destruct IH as [IH1 IH2]; [congruence|exact He|].
    rewrite IH1. split; [reflexivity|lia].
Qed.

Lemma match_len_append a b :
  a <> "" -> ends_with_digit a = false ->
  JS.match_len (a +:+ b) = JS.match_len a.
Proof.
  intros Hne He. destruct (digits_len_append a b Hne He) as [Hd Hlt].
  unfold JS.match_len. rewrite Hd, drop_append by exact Hlt.
  rewrite starts_with_hyphen_append; [reflexivity|].
  intros H. apply (f_equal String.length) in H.
  assert (forall k s, k < String.length s -> String.length (JS.drop k s) <> 0) as Hl.
  { clear. intros k s. revert k.
    induction s as [|c s IH]; intros [|k] Hk; simpl in *; try lia.
    apply IH. lia. }
  now apply (Hl _ _ Hlt).
Qed.

Lemma match_len_bound s m :
  JS.match_len s = Some m -> exists k, m = S k /\ k < String.length s.
Proof.
  unfold JS.match_len.
  destruct (_ <? _)%nat; simpl; [|discriminate].
  destruct (JS.starts_with_hyphen _) eqn:Hh; intros [= <-].
  eexists. split; [reflexivity|].
  now apply drop_nonempty, starts_with_hyphen_nonempty.
Qed.

(** The scan of a string that does not end with a digit is not
    affected by what follows it. *)
Lemma strip_from_append a b k :
  k <= String.length a -> ends_with_digit a = false ->
  JS.strip_from k (a +:+ b) = JS.strip_from k a +:+ JS.strip_from 0 b.
Proof.
  revert k. induction a as [|c a IH]; intros k Hk He.
  - simpl in Hk. assert (k = 0) as -> by lia. reflexivity.
  - pose proof (ends_with_digit_tail _ _ He) as He'.
    rewrite append_cons. destruct k as [|k].
    + rewrite !strip_from_0, <- append_cons.
      rewrite match_len_append by (congruence || exact He).
      destruct (JS.match_len (String c a)) as [[|n]|] eqn:Hm.
      * rewrite !append_cons. f_equal. apply IH; [lia|exact He'].
      * apply match_len_bound in Hm as (k & [= ->] & Hlt). simpl in Hlt.
        apply IH; [lia|exact He'].
      * rewrite !append_cons. f_equal. apply IH; [lia|exact He'].
    + simpl in Hk. simpl JS.strip_from. apply IH; [lia|exact He'].
Qed.

Lemma digits_len_run ds b :
  all_digits ds = true ->
  JS.digits_len (ds +:+ String "-" b) = String.length ds.
Proof.
  induction ds as [|c ds IH]; intros Hd; [reflexivity|].
  simpl in Hd. apply andb_true_iff in Hd as [Hc Hd].
  rewrite append_cons. simpl. now rewrite Hc, IH.
Qed.

Lemma drop_run (s t : string) : JS.drop (String.length s) (s +:+ t) = t.
Proof.
  induction s as [|c s IH]; [now destruct t|].
  rewrite append_cons. exact IH.
Qed.

Lemma drop_run_next (s t : string) c :
  JS.drop (S (String.length s)) (s +:+ String c t) = t.
Proof.
  induction s as [|d s IH]; [now destruct t|].
  rewrite append_cons. exact IH.
Qed.

Lemma match_len_run ds b :
  ds <> "" -> all_digits ds = true ->
  JS.match_len (ds +:+ String "-" b) = Some (S (String.length ds)).
Proof.
  intros Hne Hd. unfold JS.match_len. cbv zeta.
  rewrite (digits_len_run _ _ Hd), drop_run.
  destruct ds; [congruence|reflexivity].
Qed.

(** A run of digits followed by a hyphen is one match, deleted whole. *)
Lemma strip_run ds b :
  ds <> "" -> all_digits ds = true ->
  JS.strip_numeric (ds +:+ String "-" b) = JS.strip_numeric b.
Proof.
  intros Hne Hd. unfold JS.strip_numeric.
  pose proof (match_len_run ds b Hne Hd) as Hm.
  destruct ds as [|c ds]; [congruence|].
  rewrite append_cons in *. rewrite strip_from_0, Hm, strip_from_drop.
  apply f_equal, drop_run_next.
Qed.

Lemma match_len_digit_tail c d s :
  JS.is_digit c = true -> JS.is_digit d = true ->
  JS.match_len (String c (String d s)) = None ->
  JS.match_len (String d s) = None.
Proof.
  unfold JS.match_len. simpl JS.digits_len. intros -> ->.
  cbn [Nat.ltb Nat.leb JS.drop andb].
  now destruct (JS.starts_with_hyphen _).
Qed.

Lemma digit_not_hyphen d : JS.is_digit d = true -> Ascii.eqb d "-" = false.
Proof.
  intros Hd. destruct (Ascii.eqb_spec d "-") as [->|]; [discriminate|reflexivity].
Qed.

(** A kept digit is not followed by a hyphen in the output. *)
Lemma kept_digit_no_hyphen c s :
  JS.is_digit c = true ->
  JS.match_len (String c s) = None ->
  JS.starts_with_hyphen (JS.strip_from 0 s) = false.
Proof.
  intros Hc Hm. destruct s as [|d s]; [reflexivity|].
  rewrite strip_from_0. destruct (JS.is_digit d) eqn:Hd.
  - rewrite (match_len_digit_tail _ _ _ Hc Hd Hm). simpl.
    now apply digit_not_hyphen.
  - revert Hm. unfold JS.match_len. simpl JS.digits_len. rewrite Hc, Hd.
    cbn [Nat.ltb Nat.leb JS.drop andb JS.starts_with_hyphen].
    destruct (Ascii.eqb d "-") eqn:Hh; [discriminate|]. intros _.
    simpl. now rewrite ?Hh.
Qed.

Lemma drop_length_le k s : String.length (JS.drop k s) <= String.length s.
Proof.
  revert k. induction s as [|c s IH]; intros [|k]; simpl; try lia.
  specialize (IH k). lia.
Qed.

(** Nothing is left for [/\d+-/] to match. *)
Lemma strip_no_digit_hyphen s : has_digit_hyphen (JS.strip_numeric s) = false.
Proof.
  unfold JS.strip_numeric.
  remember (String.length s) as n eqn:Hn.
  assert (String.length s <= n) as Hle by lia. clear Hn.
  revert s Hle. induction n as [|n IH]; intros [|c s] Hle; simpl in Hle;
    try reflexivity; try lia.
  rewrite strip_from_0.
  destruct (JS.match_len (String c s)) as [[|m]|] eqn:Hm.
  - apply match_len_bound in Hm as (k & [=] & _).
  - rewrite strip_from_drop. apply IH.
    pose proof (drop_length_le m s). lia.
  - simpl. rewrite IH by lia. rewrite orb_false_r.
    destruct (JS.is_digit c) eqn:Hc; [|reflexivity].
    simpl. now apply kept_digit_no_hyphen with c.
Qed.

(** The pages of one loop followed by the base page, each with a path
    of the wanted shape. *)
Ltac variants_then_base :=
  apply Forall_app; split; [|now constructor];
  apply Forall_map, Forall_forall; intros ? _; cbn [path variantPageOf]; eauto.

(** Every page of a node that has a slug has a path that starts with
    the stripped slug. *)
Lemma page_paths_stripped path_resolve node s log :
  slug (fields node) = Some s -> s <> "" ->
  exists more,
    pagesOfNode path_resolve node log = (log ++ more, Normal tt)
    /\ Forall (fun p => exists suffix, path p = JS.strip_numeric s +:+ suffix) more.
Proof.
  intros Hs Hne.
  assert (exists suffix,
             path (basePageOf path_resolve node) = JS.strip_numeric s +:+ suffix)
    as Hbase.
  { exists "". unfold basePageOf. cbn [path]. rewrite Hs.
    apply truthy_Some in Hne. rewrite Hne. now rewrite append_empty_r. }
  destruct (langSwitcher (frontmatter node)) as [langs|] eqn:Hl;
    destruct (dbSwitcher (frontmatter node)) as [dbs|] eqn:Hd.
  - eexists. split; [apply (pagesOfNode_both _ _ _ _ _ _ Hl Hd Hs)|]. variants_then_base.
  - eexists. split; [apply (pagesOfNode_lang _ _ _ _ _ Hl Hd Hs)|]. variants_then_base.
  - eexists. split; [apply (pagesOfNode_db _ _ _ _ _ Hl Hd Hs)|]. variants_then_base.
  - eexists. split; [apply (pagesOfNode_plain _ _ _ Hl Hd)|]. now constructor.
Qed.

(** C10: the stripping behind every page path deletes each maximal run
    of digits that a hyphen follows, hyphen included, wherever the run
    stands: after any text [a] that does not end with a digit, at the
    start of a segment or in the middle of one, the run and its hyphen
    go and the text on both sides is treated independently; the result
    has no digit followed by a hyphen left; and every page of a node
    has a path that starts with the slug stripped this way. *)
Theorem C10_strip_anywhere a ds b :
  ends_with_digit a = false -> ds <> "" -> all_digits ds = true ->
  JS.strip_numeric (a +:+ ds +:+ String "-" b)
  = JS.strip_numeric a +:+ JS.strip_numeric b
  /\ has_digit_hyphen (JS.strip_numeric (a +:+ ds +:+ String "-" b)) = false
  /\ forall path_resolve node log,
       slug (fields node) = Some (a +:+ ds +:+ String "-" b) ->
       exists more,
         pagesOfNode path_resolve node log = (log ++ more, Normal tt)
         /\ Forall (fun p => exists suffix,
                        path p = JS.strip_numeric a +:+ JS.strip_numeric b
                                   +:+ suffix) more.
Proof.
  intros Ha Hne Hd.
  assert (JS.strip_numeric (a +:+ ds +:+ String "-" b)
          = JS.strip_numeric a +:+ JS.strip_numeric b) as Heq.
  { unfold JS.strip_numeric. rewrite strip_from_append by (lia || exact Ha).
    f_equal. now apply strip_run. }
  split; [exact Heq|]. split; [apply strip_no_digit_hyphen|].
  intros path_resolve node log Hs.
  destruct (page_paths_stripped path_resolve node _ log Hs) as (more & Hp & Hall).
  { destruct a; [destruct ds; [congruence|discriminate]|discriminate]. }
  exists more. split; [exact Hp|].
  eapply Forall_impl; [exact Hall|]. intros p [suffix Hpath].
  exists suffix. now rewrite Hpath, Heq, append_assoc.
Qed.

(** ** Instances *)

Lemma C1_lang_db_fanout_witness :
  exists variants,
    run (pagesOfNode sample_resolve
           (sample_node (Some sample_langs) (Some sample_dbs)))
    = (variants
       ++ [basePageOf sample_resolve
             (sample_node (Some sample_langs) (Some sample_dbs))], Normal tt)
    /\ length variants = 6
    /\ map path variants
       = [ "/getting-started/quickstart-typescript-postgres";
           "/getting-started/quickstart-typescript-mysql";
           "/getting-started/quickstart-typescript-sqlite";
           "/getting-started/quickstart-node-postgres";
           "/getting-started/quickstart-node-mysql";
           "/getting-started/quickstart-node-sqlite" ].
Proof.
  apply (C1_lang_db_fanout sample_resolve
           (sample_node (Some sample_langs) (Some sample_dbs))
           sample_langs sample_dbs "/01-getting-started/02-quickstart");
    reflexivity.
Defined.

Lemma C2_variant_seo_lookup_witness :
  composedKey (Some "typescript") (Some "postgres") = Some "typescript-postgres"
  /\ resolved "typescript-postgres" (Some "Quickstart")
       (techMetaTitles (sample_frontmatter None None))
       (Some "Quickstart (TypeScript, PostgreSQL)")
  /\ resolved "typescript-postgres" (Some "Quickstart") None (Some "Quickstart").
Proof.
  split; [reflexivity|].
  apply (C2_variant_seo_lookup (sample_frontmatter None None)
           (Some "typescript") (Some "postgres") "typescript-postgres").
  reflexivity.
Defined.

Lemma C5_two_fields_witness :
  exists value,
    run (onCreateNode sample_mdx (fun _ => Some sample_file))
    = ([ {| nf_node := sample_mdx; nf_name := "slug";
            nf_value := "/" +:+ value |};
         {| nf_node := sample_mdx; nf_name := "id"; nf_value := "mdx-7" |} ],
       Normal tt)
    /\ value = "01-getting-started/02-quickstart".
Proof.
  apply (C5_two_fields sample_mdx (fun _ => Some sample_file) sample_file);
    reflexivity.
Defined.

Lemma C6_single_switcher_fanout_witness :
  exists variants,
    run (pagesOfNode sample_resolve (sample_node None (Some sample_dbs)))
    = (variants
       ++ [basePageOf sample_resolve (sample_node None (Some sample_dbs))],
       Normal tt)
    /\ length variants = 3
    /\ map path variants
       = [ "/getting-started/quickstart-postgres";
           "/getting-started/quickstart-mysql";
           "/getting-started/quickstart-sqlite" ].
Proof.
  apply (C6_single_switcher_fanout sample_resolve
           (sample_node None (Some sample_dbs)) sample_dbs
           "/01-getting-started/02-quickstart");
    [reflexivity|right; split; reflexivity].
Defined.

Lemma C8_only_mdx_annotated_witness :
  internal_type sample_other <> "Mdx"
  /\ onCreateNode sample_other (fun _ => None) [] = ([], Normal tt).
Proof.
  split; [discriminate|].
  apply (C8_only_mdx_annotated sample_other (fun _ => None) []). discriminate.
Defined.

Lemma C9_base_page_seo_defaults_witness :
  JS.truthy (metaDescription (sample_frontmatter (Some sample_langs) None)) = false
  /\ seoDescription
       (context (basePageOf sample_resolve (sample_node (Some sample_langs) None)))
     = Some "Quickstart".
Proof.
  split; [reflexivity|].
  apply (C9_base_page_seo_defaults sample_resolve
           (sample_node (Some sample_langs) None)).
  reflexivity.
Defined.

Lemma C10_strip_anywhere_witness :
  ends_with_digit "/guide/step" = false /\ "12" <> "" /\ all_digits "12" = true
  /\ JS.strip_numeric "/guide/step12-setup" = "/guide/stepsetup".
Proof.
  split; [reflexivity|]. split; [discriminate|]. split; [reflexivity|].
  apply (C10_strip_anywhere "/guide/step" "12" "setup");
    [reflexivity|discriminate|reflexivity].
Defined.

(** * Further properties of the hooks *)

(** ** Whole runs of [createPages] *)

Lemma forEach_app {L A} (f : A -> Eff L unit) (l1 l2 : list A) log :
  forEach (l1 ++ l2) f log = (forEach l1 f;; forEach l2 f) log.
Proof.
  revert log. induction l1 as [|x l1 IH]; intros log; simpl.
  - reflexivity.
  - unfold mbind, Eff_bind in *. destruct (f x log) as [log1 [[]|e]]; [|reflexivity].
    apply IH.
Qed.

(** A loop whose body never calls and never throws does nothing. *)
Lemma forEach_silent {L A} (f : A -> Eff L unit) (l : list A) log :
  (forall x log', f x log' = (log', Normal tt)) ->
  forEach l f log = (log, Normal tt).
Proof.
  intros Hf. rewrite (forEach_calls (fun _ => [])).
  - f_equal. rewrite <- (app_nil_r log) at 2. f_equal.
    clear. induction l; simpl; auto.
  - intros x log' _. rewrite app_nil_r. apply Hf.
Qed.

Lemma pagesOfNode_pages path_resolve node s log :
  slug (fields node) = Some s ->
  pagesOfNode path_resolve node log
  = (log ++ variantPagesOf path_resolve node s
         ++ [basePageOf path_resolve node], Normal tt).
Proof.
  intros Hs. unfold variantPagesOf.
  destruct (langSwitcher (frontmatter node)) as [langs|] eqn:Hl;
    destruct (dbSwitcher (frontmatter node)) as [dbs|] eqn:Hd.
  - apply (pagesOfNode_both _ _ _ _ _ _ Hl Hd Hs).
  - apply (pagesOfNode_lang _ _ _ _ _ Hl Hd Hs).
  - apply (pagesOfNode_db _ _ _ _ _ Hl Hd Hs).
  - apply (pagesOfNode_plain _ _ _ Hl Hd).
Qed.

Lemma pageCount_pages path_resolve node s :
  pageCount node
  = length (variantPagesOf path_resolve node s ++ [basePageOf path_resolve node]).
Proof.
  unfold pageCount, variantPagesOf. rewrite length_app. simpl.
  destruct (langSwitcher (frontmatter node)), (dbSwitcher (frontmatter node));
    rewrite ?length_map, ?length_prod; simpl; lia.
Qed.

(** X1: when the query delivers nodes that all have a slug, the
    promise returned by [createPages] is fulfilled, the pages created
    are those of each node on its own, node after node in the order of
    the edges, and their number is the sum over the nodes of one base
    page plus N * M, N, M or no variant pages, according to the
    switchers the node declares. *)
Theorem createPages_page_count path_resolve edges :
  Forall (fun node => is_Some (slug (fields node))) edges ->
  returned (createPages path_resolve (Resolves {| data := Some edges |}))
  = Fulfilled
  /\ created (createPages path_resolve (Resolves {| data := Some edges |}))
     = concat (map (fun node => (run (pagesOfNode path_resolve node)).1) edges)
  /\ length (created (createPages path_resolve
                        (Resolves {| data := Some edges |})))
     = sum_list (map pageCount edges).
Proof.
  intros Hall. rewrite (createPages_fulfils _ _ Hall).
  split; [reflexivity|]. split; [reflexivity|].
  cbn [created]. induction Hall as [|node edges [s Hs] _ IH]; [reflexivity|].
  cbn [map concat sum_list sum_list_with]. rewrite length_app, IH. f_equal.
  unfold run. rewrite (pagesOfNode_pages _ _ _ _ Hs). cbn [fst app].
  symmetry. apply pageCount_pages.
Qed.

Lemma createPages_page_count_witness :
  Forall (fun node => is_Some (slug (fields node)))
    [sample_node (Some sample_langs) (Some sample_dbs);
     sample_node None (Some sample_dbs); sample_node None None]
  /\ length (created (createPages sample_resolve
       (Resolves {| data := Some
          [sample_node (Some sample_langs) (Some sample_dbs);
           sample_node None (Some sample_dbs); sample_node None None] |})))
     = 12.
Proof.
  assert (Forall (fun node => is_Some (slug (fields node)))
            [sample_node (Some sample_langs) (Some sample_dbs);
             sample_node None (Some sample_dbs); sample_node None None]) as H.
  { repeat constructor; simpl; eauto. }
  split; [exact H|].
  exact (proj2 (proj2 (createPages_page_count sample_resolve _ H))).
Defined.

Lemma pagesOfNode_throws path_resolve node log :
  slug (fields node) = None ->
  hasVariant node = true ->
  pagesOfNode path_resolve node log = (log, Throw TypeError).
Proof.
  intros Hs. unfold hasVariant, pagesOfNode.
  destruct (langSwitcher (frontmatter node)) as [[|lang langs]|];
    destruct (dbSwitcher (frontmatter node)) as [[|db dbs]|];
    try discriminate; intros _.
  - apply bind_throw. simpl. apply bind_throw, bind_throw.
    now apply variantPage_throws.
  - apply bind_throw. simpl. apply bind_throw. now apply variantPage_throws.
  - erewrite bind_normal by reflexivity.
    apply bind_throw. simpl. apply bind_throw. now apply variantPage_throws.
Qed.

(** X2: a node without slug throws at the first variant page it asks
    for, before any page is created; when no loop body runs (no
    switcher, or an empty inner or outer array) it gets its base page
    alone, at the path "/". *)
Theorem pagesOfNode_missing_slug path_resolve node log :
  slug (fields node) = None ->
  pagesOfNode path_resolve node log
  = (if hasVariant node
     then (log, Throw TypeError)
     else (log ++ [basePageOf path_resolve node], Normal tt))
  /\ path (basePageOf path_resolve node) = "/".
Proof.
  intros Hs. split; [|unfold basePageOf; cbn [path]; now rewrite Hs].
  destruct (hasVariant node) eqn:Hv; [now apply pagesOfNode_throws|].
  revert Hv. unfold hasVariant, pagesOfNode.
  destruct (langSwitcher (frontmatter node)) as [[|lang langs]|];
    destruct (dbSwitcher (frontmatter node)) as [[|db dbs]|];
    try discriminate; intros _; try reflexivity.
  erewrite bind_normal; [reflexivity|].
  apply forEach_silent. intros x log'. reflexivity.
Qed.

Lemma pagesOfNode_missing_slug_witness :
  slug (fields (sample_no_slug (Some sample_langs) (Some []))) = None
  /\ pagesOfNode sample_resolve (sample_no_slug (Some sample_langs) (Some [])) []
     = ([basePageOf sample_resolve (sample_no_slug (Some sample_langs) (Some []))],
        Normal tt)
  /\ pagesOfNode sample_resolve (sample_no_slug (Some sample_langs) None) []
     = ([], Throw TypeError).
Proof.
  split; [reflexivity|]. split.
  - exact (proj1 (pagesOfNode_missing_slug sample_resolve
             (sample_no_slug (Some sample_langs) (Some [])) [] eq_refl)).
  - exact (proj1 (pagesOfNode_missing_slug sample_resolve
             (sample_no_slug (Some sample_langs) None) [] eq_refl)).
Defined.

(** X3: when the nodes before the first one that throws all have a
    slug, their pages are created and stay, no page of that node or of a
    later one is created, and the returned promise stays pending while
    the promise of the [then] chain rejects. *)
Theorem createPages_stops_at_throw path_resolve good bad rest :
  Forall (fun node => is_Some (slug (fields node))) good ->
  slug (fields bad) = None ->
  hasVariant bad = true ->
  createPages path_resolve (Resolves {| data := Some (good ++ bad :: rest) |})
  = {| created :=
         concat (map (fun node => (run (pagesOfNode path_resolve node)).1) good);
       returned := Pending;
       chained := Rejected TypeError |}.
Proof.
  intros Hgood Hs Hv. unfold createPages, onResult, run at 1. cbn [data].
  rewrite forEach_app.
  erewrite bind_normal; cycle 1.
  { apply (forEach_calls (fun node => (run (pagesOfNode path_resolve node)).1)).
    intros node log Hin. rewrite Forall_forall in Hgood.
    destruct (Hgood node) as [s Hn]; [now apply list_elem_of_In|].
    now apply pagesOfNode_appends with s. }
  cbn [forEach]. erewrite bind_throw; [reflexivity|].
  now apply pagesOfNode_throws.
Qed.

Lemma createPages_stops_at_throw_witness :
  hasVariant (sample_no_slug (Some sample_langs) None) = true
  /\ createPages sample_resolve
       (Resolves {| data := Some
          [sample_node None None; sample_no_slug (Some sample_langs) None;
           sample_node None (Some sample_dbs)] |})
     = {| created := [basePageOf sample_resolve (sample_node None None)];
          returned := Pending;
          chained := Rejected TypeError |}.
Proof.
  split; [reflexivity|].
  apply (createPages_stops_at_throw sample_resolve [sample_node None None]
           (sample_no_slug (Some sample_langs) None)
           [sample_node None (Some sample_dbs)]);
    [repeat constructor; simpl; eauto|reflexivity|reflexivity].
Defined.

(** ** What every created page carries *)

Section LogsOnly.

Context {L : Type} (P : L -> Prop).

Lemma logs_only_ret {A} (a : A) : logs_only P (mret a : Eff L A).
Proof. intros log H. exact H. Qed.

Lemma logs_only_throw {A} e : logs_only P (throw e : Eff L A).
Proof. intros log H. exact H. Qed.

Lemma logs_only_call x : P x -> logs_only P (call x).
Proof.
  intros Hx log H. unfold call. cbn [fst]. apply Forall_app. split; [exact H|].
  now constructor.
Qed.

Lemma logs_only_bind {A B} (m : Eff L A) (k : A -> Eff L B) :
  logs_only P m -> (forall a, logs_only P (k a)) -> logs_only P (m ≫= k).
Proof.
  intros Hm Hk log H. specialize (Hm log H). unfold mbind, Eff_bind.
  destruct (m log) as [log1 [a|e]]; [now apply Hk|exact Hm].
Qed.

Lemma logs_only_forEach {A} (f : A -> Eff L unit) (l : list A) :
  (forall x, In x l -> logs_only P (f x)) -> logs_only P (forEach l f).
Proof.
  induction l as [|x l IH]; intros Hf; [apply logs_only_ret|].
  cbn [forEach]. apply logs_only_bind; [apply Hf; now left|].
  intros _. apply IH. intros y Hy. apply Hf. now right.
Qed.

End LogsOnly.

Lemma logs_only_variantPage path_resolve (P : Page -> Prop) node suffix lang db :
  (forall s, P (variantPageOf path_resolve node s suffix lang db)) ->
  logs_only P (variantPage path_resolve node suffix lang db).
Proof.
  intros HP. unfold variantPage, slug_replace.
  destruct (slug (fields node)) as [s|].
  - intros log H. cbn. apply Forall_app. split; [exact H|].
    constructor; [apply HP|constructor].
  - intros log H. exact H.
Qed.

(** X4: whether the callback completes or throws, and wherever it
    stops, every page created has the article layout as its component
    and, as the id of its context, the id of one of the nodes the query
    delivered. *)
Theorem created_pages_layout_and_id path_resolve edges :
  Forall (fun p =>
            component p = articleLayout path_resolve
            /\ exists node, In node edges /\ ctx_id (context p) = id (fields node))
    (created (createPages path_resolve (Resolves {| data := Some edges |}))).
Proof.
  set (P := fun p : Page =>
              component p = articleLayout path_resolve
              /\ exists node, In node edges /\ ctx_id (context p) = id (fields node)).
  assert (logs_only P (forEach edges (pagesOfNode path_resolve))) as Hall.
  { apply logs_only_forEach. intros node Hin.
    assert (forall suffix lang db,
               logs_only P (variantPage path_resolve node suffix lang db)) as Hv.
    { intros suffix lang db. apply logs_only_variantPage.
      intros s. split; [reflexivity|]. now exists node. }
    unfold pagesOfNode. apply logs_only_bind.
    - destruct (langSwitcher (frontmatter node)) as [langs|];
        [|apply logs_only_ret].
      destruct (dbSwitcher (frontmatter node)) as [dbs|];
        apply logs_only_forEach; intros lang _; [|apply Hv].
      apply logs_only_forEach. intros db _. apply Hv.
    - intros _. apply logs_only_bind.
      + destruct (dbSwitcher (frontmatter node)) as [dbs|],
          (langSwitcher (frontmatter node)) as [langs|];
          try apply logs_only_ret.
        apply logs_only_forEach. intros db _. apply Hv.
      + intros _. apply logs_only_call. split; [reflexivity|]. now exists node. }
  specialize (Hall [] (Forall_nil_2 _)).
  unfold createPages, onResult, run. cbn [data].
  destruct (forEach edges (pagesOfNode path_resolve) []) as [log [[]|e]];
    exact Hall.
Qed.

(** ** Distinct paths *)

Lemma append_eq_self (s t : string) : s +:+ t = s -> t = "".
Proof.
  induction s as [|c s IH]; [auto|]. rewrite append_cons. intros [= H]. auto.
Qed.

(** A hyphen-free first part is recovered from a hyphenated pair. *)
Lemma hyphen_split_inj l l' d d' :
  hyphen_free l = true -> hyphen_free l' = true ->
  l +:+ String "-" d = l' +:+ String "-" d' -> l = l' /\ d = d'.
Proof.
  revert l'. induction l as [|c l IH]; intros [|c' l'] Hl Hl' Heq.
  - now injection Heq as ->.
  - rewrite append_cons in Heq. injection Heq as <- _.
    simpl in Hl'. discriminate.
  - rewrite append_cons in Heq. injection Heq as -> _.
    simpl in Hl. discriminate.
  - rewrite !append_cons in Heq. injection Heq as -> Heq.
    simpl in Hl, Hl'. apply andb_true_iff in Hl as [_ Hl], Hl' as [_ Hl'].
    destruct (IH l' Hl Hl' Heq) as [-> ->]. auto.
Qed.

Lemma list_prod_map {A A' B B'} (f : A -> A') (g : B -> B') l l' :
  list_prod (map f l) (map g l') = map (fun p => (f p.1, g p.2)) (list_prod l l').
Proof.
  induction l as [|x l IH]; [reflexivity|].
  cbn [map list_prod]. now rewrite IH, map_app, !map_map.
Qed.

Lemma NoDup_list_prod {A B} (l : list A) (l' : list B) :
  NoDup l -> NoDup l' -> NoDup (list_prod l l').
Proof.
  intros Hl Hl'. induction Hl as [|x l Hx Hl IH]; [constructor|].
  cbn [list_prod]. apply NoDup_app. split; [|split; [|exact IH]].
  - apply (NoDup_fmap_2_strong (pair x)); [|exact Hl'].
    now intros y y' _ _ [= ->].
  - intros [a b] Hin Hin'. apply list_elem_of_In, in_map_iff in Hin.
    destruct Hin as (y & [= <- <-] & _).
    apply list_elem_of_In, in_prod_iff in Hin' as [Hin' _].
    now apply Hx, list_elem_of_In.
Qed.

Lemma NoDup_map_on {A B} (f : A -> B) (l : list A) :
  (forall x y, x ∈ l -> y ∈ l -> f x = f y -> x = y) ->
  NoDup l -> NoDup (map f l).
Proof. exact (NoDup_fmap_2_strong f l). Qed.

Lemma variant_path_shape path_resolve node s p :
  In p (variantPagesOf path_resolve node s) ->
  exists rest, path p = JS.strip_numeric s +:+ String "-" rest.
Proof.
  unfold variantPagesOf.
  destruct (langSwitcher (frontmatter node)), (dbSwitcher (frontmatter node));
    try contradiction; intros Hin; apply in_map_iff in Hin as (x & <- & _);
    eexists; reflexivity.
Qed.

Lemma base_path_not_variant path_resolve node s rest :
  slug (fields node) = Some s ->
  JS.strip_numeric s +:+ String "-" rest <> path (basePageOf path_resolve node).
Proof.
  intros Hs Heq. unfold basePageOf in Heq. cbn [path] in Heq. rewrite Hs in Heq.
  destruct (JS.truthy (Some s)) eqn:Ht.
  - apply append_eq_self in Heq. discriminate.
  - destruct s; [discriminate|discriminate].
Qed.

Lemma variant_paths_distinct path_resolve node s :
  NoDup (identifiers (langSwitcher (frontmatter node))) ->
  NoDup (identifiers (dbSwitcher (frontmatter node))) ->
  (is_Some (dbSwitcher (frontmatter node)) ->
   Forall (fun x => hyphen_free x = true)
     (identifiers (langSwitcher (frontmatter node)))) ->
  NoDup (map path (variantPagesOf path_resolve node s)).
Proof.
  intros Hl Hd Hh. unfold variantPagesOf.
  destruct (langSwitcher (frontmatter node)) as [langs|],
    (dbSwitcher (frontmatter node)) as [dbs|]; cbn [identifiers] in *.
  - specialize (Hh (ltac:(eauto))).
    rewrite map_map. cbn [path variantPageOf].
    rewrite <- (map_map (fun p => (JS.template p.1, JS.template p.2))
                  (fun q => JS.strip_numeric s +:+ "-" +:+ q.1 +:+ "-" +:+ q.2)).
    rewrite <- list_prod_map.
    apply NoDup_map_on; [|now apply NoDup_list_prod].
    intros [l d] [l' d'] Hin Hin' Heq. cbn [fst snd] in Heq.
    apply String.app_inj in Heq. injection Heq as Heq.
    apply list_elem_of_In, in_prod_iff in Hin as [Hin _].
    apply list_elem_of_In, in_prod_iff in Hin' as [Hin' _].
    rewrite Forall_forall in Hh.
    destruct (hyphen_split_inj l l' d d') as [-> ->]; auto;
      apply Hh; now apply list_elem_of_In.
  - rewrite map_map. cbn [path variantPageOf].
    rewrite <- (map_map JS.template (fun x => JS.strip_numeric s +:+ "-" +:+ x)).
    apply NoDup_map_on; [|exact Hl].
    intros x y _ _ Heq. apply String.app_inj in Heq. now injection Heq.
  - rewrite map_map. cbn [path variantPageOf].
    rewrite <- (map_map JS.template (fun x => JS.strip_numeric s +:+ "-" +:+ x)).
    apply NoDup_map_on; [|exact Hd].
    intros x y _ _ Heq. apply String.app_inj in Heq. now injection Heq.
  - constructor.
Qed.

(** X5: the pages of a node have pairwise distinct paths when the
    identifiers of each switcher are pairwise distinct as printed and,
    if both switchers are declared, no language identifier contains a
    hyphen. *)
Theorem node_paths_distinct path_resolve node s :
  slug (fields node) = Some s ->
  NoDup (identifiers (langSwitcher (frontmatter node))) ->
  NoDup (identifiers (dbSwitcher (frontmatter node))) ->
  (is_Some (dbSwitcher (frontmatter node)) ->
   Forall (fun x => hyphen_free x = true)
     (identifiers (langSwitcher (frontmatter node)))) ->
  run (pagesOfNode path_resolve node)
  = (variantPagesOf path_resolve node s ++ [basePageOf path_resolve node],
     Normal tt)
  /\ NoDup (map path (variantPagesOf path_resolve node s
                      ++ [basePageOf path_resolve node])).
Proof.
  intros Hs Hl Hd Hh. split; [apply (pagesOfNode_pages _ _ _ [] Hs)|].
  rewrite map_app. apply NoDup_app. split; [|split].
  - now apply variant_paths_distinct.
  - intros x Hin Hbase. apply list_elem_of_In, in_map_iff in Hin as (p & <- & Hin).
    apply variant_path_shape in Hin as [rest Hp].
    apply list_elem_of_In in Hbase. destruct Hbase as [Hbase|[]].
    rewrite Hp in Hbase. symmetry in Hbase.
    now apply (base_path_not_variant path_resolve node s rest Hs).
  - cbn [map]. apply NoDup_singleton.
Qed.

Lemma node_paths_distinct_witness :
  NoDup (map path
    (variantPagesOf sample_resolve
       (sample_node (Some sample_langs) (Some sample_dbs))
       "/01-getting-started/02-quickstart"
     ++ [basePageOf sample_resolve
           (sample_node (Some sample_langs) (Some sample_dbs))])).
Proof.
  apply (node_paths_distinct sample_resolve
           (sample_node (Some sample_langs) (Some sample_dbs))
           "/01-getting-started/02-quickstart").
  - reflexivity.
  - apply (bool_decide_unpack _). vm_compute. exact I.
  - apply (bool_decide_unpack _). vm_compute. exact I.
  - intros _. repeat constructor.
Defined.

(** ** Paths and override keys *)

Lemma truthy_inv v : JS.truthy v = true -> exists s, v = Some s /\ s <> "".
Proof.
  destruct v as [s|]; [|discriminate]. intros H. exists s.
  split; [reflexivity|]. now apply truthy_Some.
Qed.

Lemma composedKey_None lang db :
  composedKey lang db = None -> JS.truthy lang || JS.truthy db = false.
Proof.
  unfold composedKey. destruct lang as [l|], db as [d|];
    rewrite ?truthy_decide; cbn [JS.truthy];
    repeat case_bool_decide; try discriminate; reflexivity.
Qed.

Lemma variantPageOf_resolved path_resolve node s suffix lang db key :
  composedKey lang db = Some key ->
  seoResolved (frontmatter node) key
    (variantPageOf path_resolve node s suffix lang db).
Proof.
  intros Hk. apply composedKey_queryParam in Hk as [Hq Ht].
  unfold seoResolved, variantPageOf. cbn [context seoTitle seoDescription].
  unfold getTitle, getDesc. rewrite Ht, Hq.
  split; apply find_entry_resolved.
Qed.

(** X6: when every identifier of the declared switchers is a non-empty
    string, each variant page is looked up in the override tables under
    the very key its path ends with: the path is the stripped slug, a
    hyphen and the key, and title and description are what the tables
    give for that key. *)
Theorem variant_path_ends_with_key path_resolve node s :
  allPresent (langSwitcher (frontmatter node)) ->
  allPresent (dbSwitcher (frontmatter node)) ->
  Forall (fun p =>
            exists key,
              path p = JS.strip_numeric s +:+ "-" +:+ key
              /\ seoResolved (frontmatter node) key p)
    (variantPagesOf path_resolve node s).
Proof.
  intros Hl Hd. unfold variantPagesOf.
  destruct (langSwitcher (frontmatter node)) as [langs|],
    (dbSwitcher (frontmatter node)) as [dbs|]; cbn [allPresent] in *;
    [| | |constructor]; apply Forall_forall; intros p Hin;
    apply list_elem_of_In, in_map_iff in Hin as (x & <- & Hin).
  - destruct x as [lang db]. apply in_prod_iff in Hin as [Hin1 Hin2].
    cbn [fst snd]. rewrite Forall_forall in Hl, Hd.
    destruct (truthy_inv _ (Hl _ (proj2 (list_elem_of_In _ _) Hin1)))
      as (l & El & Hne).
    destruct (truthy_inv _ (Hd _ (proj2 (list_elem_of_In _ _) Hin2)))
      as (d & Ed & Hne').
    exists (l +:+ "-" +:+ d). rewrite El, Ed. split; [reflexivity|].
    apply variantPageOf_resolved. unfold composedKey.
    now rewrite !bool_decide_eq_true_2.
  - rewrite Forall_forall in Hl.
    destruct (truthy_inv _ (Hl _ (proj2 (list_elem_of_In _ _) Hin)))
      as (l & -> & Hne).
    exists l. split; [reflexivity|].
    apply variantPageOf_resolved. unfold composedKey.
    now rewrite bool_decide_eq_true_2.
  - rewrite Forall_forall in Hd.
    destruct (truthy_inv _ (Hd _ (proj2 (list_elem_of_In _ _) Hin)))
      as (d & -> & Hne).
    exists d. split; [reflexivity|].
    apply variantPageOf_resolved. unfold composedKey.
    now rewrite bool_decide_eq_true_2.
Qed.

Lemma variant_path_ends_with_key_witness :
  allPresent (Some sample_langs) /\ allPresent (Some sample_dbs)
  /\ Forall (fun p =>
               exists key,
                 path p = "/getting-started/quickstart" +:+ "-" +:+ key
                 /\ seoResolved (sample_frontmatter (Some sample_langs)
                                   (Some sample_dbs)) key p)
       (variantPagesOf sample_resolve
          (sample_node (Some sample_langs) (Some sample_dbs))
          "/01-getting-started/02-quickstart").
Proof.
  assert (allPresent (Some sample_langs)) as Hl by (repeat constructor).
  assert (allPresent (Some sample_dbs)) as Hd by (repeat constructor).
  split; [exact Hl|]. split; [exact Hd|].
  exact (variant_path_ends_with_key sample_resolve
           (sample_node (Some sample_langs) (Some sample_dbs))
           "/01-getting-started/02-quickstart" Hl Hd).
Defined.

(** X7: a variant page whose identifiers are all null or empty gets the
    page-level title and description: the override tables are not read
    for it, whatever entries they hold. *)
Theorem absent_identifiers_get_defaults frontmatter lang db :
  composedKey lang db = None ->
  getTitle frontmatter lang db
  = JS.or (metaTitle frontmatter) (title frontmatter)
  /\ getDesc frontmatter lang db
     = JS.or (metaDescription frontmatter) (title frontmatter).
Proof.
  intros Hk. apply composedKey_None in Hk.
  unfold getTitle, getDesc. now rewrite Hk.
Qed.

Lemma absent_identifiers_get_defaults_witness :
  composedKey (Some "") None = None
  /\ getTitle
       {| title := Some "Quickstart"; metaTitle := Some "Start quickly";
          metaDescription := None; langSwitcher := Some [Some ""];
          dbSwitcher := None;
          techMetaTitles := Some [ {| name := Some ""; value := Some "Other" |} ];
          techMetaDescriptions := None |} (Some "") None
     = Some "Start quickly".
Proof.
  split; [reflexivity|].
  exact (proj1 (absent_identifiers_get_defaults _ (Some "") None eq_refl)).
Defined.

(** ** More on the stripping of numeric prefixes *)

Lemma match_len_inv s m :
  JS.match_len s = Some m ->
  m = S (JS.digits_len s) /\ 0 < JS.digits_len s
  /\ JS.starts_with_hyphen (JS.drop (JS.digits_len s) s) = true.
Proof.
  unfold JS.match_len. cbv zeta.
  destruct (0 <? JS.digits_len s)%nat eqn:Hk; [|discriminate].
  destruct (JS.starts_with_hyphen _) eqn:Hh; [|discriminate].
  intros [= <-]. apply Nat.ltb_lt in Hk. auto.
Qed.

Lemma match_len_None_intro s :
  JS.starts_with_hyphen (JS.drop (JS.digits_len s) s) = false ->
  JS.match_len s = None.
Proof. intros H. unfold JS.match_len. cbv zeta. now rewrite H, andb_false_r. Qed.

Lemma match_len_nondigit c s :
  JS.is_digit c = false -> JS.match_len (String c s) = None.
Proof. intros H. unfold JS.match_len. cbn [JS.digits_len]. now rewrite H. Qed.

(** Where no digit is followed by a hyphen, a run of digits is not
    followed by one either. *)
Lemma run_without_hyphen c s :
  JS.is_digit c = true ->
  has_digit_hyphen (String c s) = false ->
  JS.starts_with_hyphen (JS.drop (JS.digits_len s) s) = false.
Proof.
  revert c. induction s as [|d s IH]; intros c Hc Hn; [reflexivity|].
  cbn [has_digit_hyphen] in Hn. rewrite Hc in Hn.
  apply orb_false_iff in Hn as [Hh Hn]. cbn [andb] in Hh.
  cbn [JS.digits_len]. destruct (JS.is_digit d) eqn:Hd.
  - cbn [JS.drop]. apply IH with d; [exact Hd|].
    cbn [has_digit_hyphen]. now rewrite Hd.
  - exact Hh.
Qed.

Lemma strip_unchanged s :
  has_digit_hyphen s = false -> JS.strip_numeric s = s.
Proof.
  unfold JS.strip_numeric. induction s as [|c s IH]; intros Hn; [reflexivity|].
  rewrite strip_from_0.
  assert (JS.match_len (String c s) = None) as ->.
  { destruct (JS.is_digit c) eqn:Hc; [|now apply match_len_nondigit].
    apply match_len_None_intro. cbn [JS.digits_len]. rewrite Hc.
    cbn [JS.drop]. now apply run_without_hyphen with c. }
  f_equal. apply IH. cbn [has_digit_hyphen] in Hn.
  now apply orb_false_iff in Hn as [_ Hn].
Qed.

(** X8: the strings the stripping leaves as they are are exactly those
    in which no digit is followed by a hyphen, and the stripped slug is
    one of them: stripping again changes nothing. *)
Theorem strip_fixed_points s :
  (JS.strip_numeric s = s <-> has_digit_hyphen s = false)
  /\ JS.strip_numeric (JS.strip_numeric s) = JS.strip_numeric s.
Proof.
  split; [split|].
  - intros <-. apply strip_no_digit_hyphen.
  - apply strip_unchanged.
  - apply strip_unchanged, strip_no_digit_hyphen.
Qed.

Lemma digits_len_snoc a c :
  JS.is_digit c = false ->
  JS.digits_len (a +:+ String c "") = JS.digits_len a.
Proof.
  intros Hc. induction a as [|x a IH].
  - change ("" +:+ String c "") with (String c "").
    cbn [JS.digits_len]. now rewrite Hc.
  - rewrite append_cons. cbn [JS.digits_len]. now rewrite IH.
Qed.

Lemma digits_len_le s : JS.digits_len s <= String.length s.
Proof.
  induction s as [|c s IH]; simpl; [lia|]. destruct (JS.is_digit c); lia.
Qed.

Lemma starts_with_hyphen_drop_snoc a c k :
  Ascii.eqb c "-" = false -> k <= String.length a ->
  JS.starts_with_hyphen (JS.drop k (a +:+ String c ""))
  = JS.starts_with_hyphen (JS.drop k a).
Proof.
  intros Hc. revert k. induction a as [|x a IH]; intros k Hk.
  - simpl in Hk. assert (k = 0) as -> by lia.
    change ("" +:+ String c "") with (String c "").
    cbn [JS.drop JS.starts_with_hyphen]. exact Hc.
  - rewrite append_cons. destruct k as [|k]; [reflexivity|].
    cbn [JS.drop]. apply IH. simpl in Hk. lia.
Qed.

Lemma match_len_snoc a c :
  JS.is_digit c = false -> Ascii.eqb c "-" = false ->
  JS.match_len (a +:+ String c "") = JS.match_len a.
Proof.
  intros Hd Hh. unfold JS.match_len. cbv zeta.
  rewrite (digits_len_snoc _ _ Hd).
  now rewrite (starts_with_hyphen_drop_snoc _ _ _ Hh (digits_len_le a)).
Qed.

Lemma strip_from_snoc a c k :
  JS.is_digit c = false -> Ascii.eqb c "-" = false ->
  k <= String.length a ->
  JS.strip_from k (a +:+ String c "") = JS.strip_from k a +:+ String c "".
Proof.
  intros Hd Hh. revert k. induction a as [|x a IH]; intros k Hk.
  - simpl in Hk. assert (k = 0) as -> by lia.
    change ("" +:+ String c "") with (String c "").
    now rewrite strip_from_0, (match_len_nondigit _ _ Hd).
  - rewrite append_cons. destruct k as [|k].
    + rewrite !strip_from_0, <- append_cons, (match_len_snoc _ _ Hd Hh).
      destruct (JS.match_len (String x a)) as [[|n]|] eqn:Hm.
      * rewrite append_cons. f_equal. apply IH. lia.
      * apply match_len_bound in Hm as (n' & [= ->] & Hlt). simpl in Hlt.
        apply IH. lia.
      * rewrite append_cons. f_equal. apply IH. lia.
    + cbn [JS.strip_from]. apply IH. simpl in Hk. lia.
Qed.

Lemma ends_with_digit_snoc a c :
  JS.is_digit c = false -> ends_with_digit (a +:+ String c "") = false.
Proof.
  intros Hc. induction a as [|x a IH]; [exact Hc|].
  rewrite append_cons. destruct a as [|y a]; [exact Hc|exact IH].
Qed.

(** X9: a character that is neither a digit nor a hyphen, such as the
    slash between two segments, stays where it is, and the text on
    either side of it is stripped on its own: the stripping of a path
    is the stripping of its segments. *)
Theorem strip_at_separator a c b :
  JS.is_digit c = false -> Ascii.eqb c "-" = false ->
  JS.strip_numeric (a +:+ String c b)
  = JS.strip_numeric a +:+ String c (JS.strip_numeric b).
Proof.
  intros Hd Hh. unfold JS.strip_numeric.
  change (String c b) with (String c "" +:+ b). rewrite <- append_assoc.
  rewrite strip_from_append; [|lia|now apply ends_with_digit_snoc].
  rewrite (strip_from_snoc _ _ _ Hd Hh) by lia.
  now rewrite append_assoc.
Qed.

Lemma strip_at_separator_witness :
  JS.strip_numeric ("/01-getting-started" +:+ String "/" "02-quickstart")
  = JS.strip_numeric "/01-getting-started"
    +:+ String "/" (JS.strip_numeric "02-quickstart").
Proof.
  apply (strip_at_separator "/01-getting-started" "/" "02-quickstart");
    reflexivity.
Defined.

Lemma letters_after_match s :
  JS.starts_with_hyphen (JS.drop (JS.digits_len s) s) = true ->
  letters (JS.drop (S (JS.digits_len s)) s) = letters s.
Proof.
  induction s as [|d s IH]; [discriminate|].
  cbn [JS.digits_len letters]. destruct (JS.is_digit d) eqn:Hd.
  - cbn [JS.drop orb]. exact IH.
  - cbn [JS.drop JS.starts_with_hyphen orb]. now intros ->.
Qed.

(** X10: the stripping deletes digits and hyphens only: the other
    characters of the slug all remain, in their order. *)
Theorem strip_keeps_letters s : letters (JS.strip_numeric s) = letters s.
Proof.
  unfold JS.strip_numeric.
  remember (String.length s) as n eqn:Hn.
  assert (String.length s <= n) as Hle by lia. clear Hn.
  revert s Hle. induction n as [|n IH]; intros [|c s] Hle; simpl in Hle;
    try reflexivity; try lia.
  rewrite strip_from_0.
  destruct (JS.match_len (String c s)) as [[|m]|] eqn:Hm.
  - apply match_len_bound in Hm as (k & [=] & _).
  - apply match_len_inv in Hm as ([= ->] & _ & Hh).
    rewrite strip_from_drop, IH.
    + now apply (letters_after_match (String c s)).
    + apply Nat.le_trans with (String.length s); [apply drop_length_le|lia].
  - cbn [letters]. rewrite IH by lia. reflexivity.
Qed.

(** ** From the file to the page path *)

Lemma replace_unfold pat rep s :
  JS.replace pat rep s
  = if String.prefix pat s then rep +:+ JS.drop (String.length pat) s
    else match s with
         | "" => ""
         | String c s' => String c (JS.replace pat rep s')
         end.
Proof. destruct s; reflexivity. Qed.

Lemma replace_final stem e :
  occurs_before e (stem +:+ e) (String.length stem) = false ->
  JS.replace e "" (stem +:+ e) = stem.
Proof.
  induction stem as [|c stem IH]; intros Ho.
  - change ("" +:+ e) with e. rewrite replace_unfold, prefix_refl.
    apply drop_length.
  - cbn [String.length occurs_before] in Ho. rewrite append_cons in *.
    apply orb_false_iff in Ho as [Hp Ho].
    rewrite replace_cons, Hp. f_equal. now apply IH.
Qed.

(** X11: when the relative path of the parent file is a stem followed
    by the extension and the extension does not occur in it at any
    earlier index, the slug field of the node is "/" followed by the
    stem, and "/" alone for the stem "index". *)
Theorem onCreateNode_strips_final_extension node getNode stem e :
  internal_type node = "Mdx" ->
  getNode (parent node) = Some {| relativePath := stem +:+ e; ext := e |} ->
  occurs_before e (stem +:+ e) (String.length stem) = false ->
  run (onCreateNode node getNode)
  = ([ {| nf_node := node; nf_name := "slug";
          nf_value := "/" +:+ (if String.eqb stem "index" then "" else stem) |};
       {| nf_node := node; nf_name := "id"; nf_value := node_id node |} ],
     Normal tt).
Proof.
  intros Ht Hp Ho. unfold run, onCreateNode. rewrite Ht, Hp.
  cbn [ext relativePath String.eqb Ascii.eqb Bool.eqb].
  rewrite (replace_final _ _ Ho). reflexivity.
Qed.

Lemma onCreateNode_strips_final_extension_witness :
  occurs_before ".mdx" "index.mdx" 5 = false
  /\ run (onCreateNode sample_mdx
            (fun _ => Some {| relativePath := "index.mdx"; ext := ".mdx" |}))
     = ([ {| nf_node := sample_mdx; nf_name := "slug"; nf_value := "/" |};
          {| nf_node := sample_mdx; nf_name := "id"; nf_value := "mdx-7" |} ],
        Normal tt).
Proof.
  split; [reflexivity|].
  apply (onCreateNode_strips_final_extension sample_mdx
           (fun _ => Some {| relativePath := "index.mdx"; ext := ".mdx" |})
           "index" ".mdx"); reflexivity.
Defined.

(** X12: the hook attaches both fields or none.  It completes with the
    two fields added when the node is an Mdx node whose parent is found,
    completes with nothing added when the node is not an Mdx node, and
    throws with nothing added when the parent of an Mdx node is not
    found. *)
Theorem onCreateNode_all_or_nothing node getNode log :
  (internal_type node = "Mdx" /\ is_Some (getNode (parent node))
   /\ exists value,
        onCreateNode node getNode log
        = (log ++ [ {| nf_node := node; nf_name := "slug"; nf_value := value |};
                    {| nf_node := node; nf_name := "id";
                       nf_value := node_id node |} ], Normal tt))
  \/ (internal_type node <> "Mdx"
      /\ onCreateNode node getNode log = (log, Normal tt))
  \/ (internal_type node = "Mdx" /\ getNode (parent node) = None
      /\ onCreateNode node getNode log = (log, Throw TypeError)).
Proof.
  unfold onCreateNode.
  destruct (String.eqb_spec (internal_type node) "Mdx") as [Ht|Ht];
    [|right; left; auto].
  destruct (getNode (parent node)) as [file|] eqn:Hp.
  - left. split; [exact Ht|]. split; [eauto|]. eexists.
    unfold createNodeField, call, mbind, Eff_bind.
    now rewrite <- app_assoc.
  - right; right. auto.
Qed.

(** X13: a node whose slug is "/" followed by some text, the shape the
    annotation gives it, never makes the callback throw; its base page
    is at "/" followed by that text stripped, the root "/" when the
    text is empty, and each of its pages has a path that starts with a
    slash. *)
Theorem annotated_node_paths_rooted path_resolve node v log :
  slug (fields node) = Some ("/" +:+ v) ->
  path (basePageOf path_resolve node) = "/" +:+ JS.strip_numeric v
  /\ exists more,
       pagesOfNode path_resolve node log = (log ++ more, Normal tt)
       /\ Forall (fun p => exists rest, path p = String "/" rest) more.
Proof.
  intros Hs.
  assert (JS.strip_numeric ("/" +:+ v) = "/" +:+ JS.strip_numeric v) as Hv.
  { unfold JS.strip_numeric. now rewrite strip_from_append by (simpl; auto; lia). }
  split.
  - unfold basePageOf. cbn [path]. now rewrite Hs.
  - destruct (page_paths_stripped path_resolve node _ log Hs)
      as (more & Hp & Hall); [discriminate|].
    exists more. split; [exact Hp|].
    eapply Forall_impl; [exact Hall|]. intros p [suffix ->].
    rewrite Hv. eexists. reflexivity.
Qed.

Lemma annotated_node_paths_rooted_witness :
  path (basePageOf sample_resolve (sample_node (Some sample_langs) None))
  = "/getting-started/quickstart".
Proof.
  exact (proj1 (annotated_node_paths_rooted sample_resolve
                  (sample_node (Some sample_langs) None)
                  "01-getting-started/02-quickstart" [] eq_refl)).
Defined.
